(** * Game analysis of chess-insights (src/utils/gameAnalysis.ts and the tactics worker hook)

    Shallow embedding of the TypeScript analysis functions.  JavaScript
    numbers are IEEE-754 binary64 values, modelled with the Standard
    Library's [SpecFloat] at precision 53 and maximal exponent 1024; counts
    that the code only increments are kept as [nat].  Strings are Rocq
    strings over ASCII; [toLowerCase] is the ASCII case mapping. *)

From Stdlib Require Import ZArith List String Ascii Bool Lia.
From Stdlib Require Import Sorting.Permutation Sorting.Sorted.
From Stdlib Require Import Floats.SpecFloat.
Import ListNotations.

Open Scope Z_scope.

(* ------------------------------------------------------------------ *)
(** ** JavaScript numbers *)

Module JsNum.

Definition prec : Z := 53.
Definition emax : Z := 1024.

(** A JavaScript [number]. *)
Definition num := spec_float.

(** The number denoting an integer ([binary_normalize] rounds to nearest even). *)
Definition of_Z (z : Z) : num := binary_normalize prec emax z 0 false.
Definition of_nat (n : nat) : num := of_Z (Z.of_nat n).

(** [a / b] and [a * b]. *)
Definition div (a b : num) : num := SFdiv prec emax a b.
Definition mul (a b : num) : num := SFmul prec emax a b.

(** [Math.round x]: the integral number closest to [x], ties toward
    +infinity; NaN, infinities and zeros are returned unchanged, and a
    value in [-0.5, 0) gives -0. *)
Definition round (x : num) : num :=
  match x with
  | S754_finite s m e =>
      if Z.leb 0 e then x
      else
        let z := Z.div (2 * cond_Zopp s (Zpos m) + 2 ^ (- e)) (2 ^ (1 - e)) in
        if Z.eqb z 0 then S754_zero s else of_Z z
  | _ => x
  end.

(** [x || 0] for a number [x]: the falsy numbers are +0, -0 and NaN. *)
Definition or_zero (x : num) : num :=
  match x with
  | S754_zero _ | S754_nan => S754_zero false
  | _ => x
  end.

Definition is_nan (x : num) : bool :=
  match x with S754_nan => true | _ => false end.

End JsNum.

Import JsNum.

(* ------------------------------------------------------------------ *)
(** ** Strings *)

Definition lower_ascii (c : ascii) : ascii :=
  let n := nat_of_ascii c in
  if (Nat.leb 65 n && Nat.leb n 90)%bool then ascii_of_nat (n + 32) else c.

(** [s.toLowerCase()]. *)
Definition toLowerCase (s : string) : string :=
  string_of_list_ascii (map lower_ascii (list_ascii_of_string s)).

(* ------------------------------------------------------------------ *)
(** ** Data model (src/services/chessApi.ts) *)

Record GamePlayer := {
  username : string;
  rating : Z;
  result : string
}.

(** The fields of [ChessGame] the analysis reads. *)
Record ChessGame := {
  pgn : string;
  end_time : Z;
  time_class : string;
  white : GamePlayer;
  black : GamePlayer
}.

Inductive GameResult := Win | Loss | Draw.

Definition GameResult_eqb (a b : GameResult) : bool :=
  match a, b with
  | Win, Win | Loss, Loss | Draw, Draw => true
  | _, _ => false
  end.

(* ------------------------------------------------------------------ *)
(** ** Helpers *)

(** [playedAsWhite(game, username)] *)
Definition playedAsWhite (game : ChessGame) (u : string) : bool :=
  String.eqb (toLowerCase (username (white game))) (toLowerCase u).

Definition draws : list string :=
  ["agreed"; "repetition"; "stalemate"; "insufficient"; "50move"; "timevsinsufficient"]%string.

(** [getResult(game, username)] *)
Definition getResult (game : ChessGame) (u : string) : GameResult :=
  let asWhite := playedAsWhite game u in
  let r := if asWhite then result (white game) else result (black game) in
  if String.eqb r "win" then Win
  else if existsb (String.eqb r) draws then Draw
  else Loss.

(** [winPct(wins, total)] *)
Definition winPct (wins total : nat) : num :=
  if Nat.eqb total 0 then S754_zero false
  else round (mul (div (of_nat wins) (of_nat total)) (of_nat 100)).

Record GameResultCounts := {
  rc_wins : nat;
  rc_losses : nat;
  rc_draws : nat;
  rc_total : nat;
  rc_winPct : num;
  rc_lossPct : num;
  rc_drawPct : num
}.

(** [makeResultCounts(wins, losses, draws)] *)
Definition makeResultCounts (w l d : nat) : GameResultCounts :=
  let total := (w + l + d)%nat in
  {| rc_wins := w; rc_losses := l; rc_draws := d; rc_total := total;
     rc_winPct := winPct w total; rc_lossPct := winPct l total;
     rc_drawPct := winPct d total |}.

(** One iteration of the loop of [computeResultCounts] on the counters
    [(wins, losses, draws)]. *)
Definition tally (u : string) (acc : nat * nat * nat) (game : ChessGame) : nat * nat * nat :=
  let '(w, l, d) := acc in
  match getResult game u with
  | Win => (S w, l, d)
  | Loss => (w, S l, d)
  | Draw => (w, l, S d)
  end.

(** [computeResultCounts(games, username)] *)
Definition computeResultCounts (games : list ChessGame) (u : string) : GameResultCounts :=
  let '(w, l, d) := fold_left (tally u) games (0, 0, 0)%nat in
  makeResultCounts w l d.

(* ------------------------------------------------------------------ *)
(** ** Text scanning: the regular expressions of the module *)

Module Scan.

(** The double quote and the newline characters. *)
Definition dq : ascii := "034"%char.
Definition nl : ascii := "010"%char.

(** [\w]: ASCII letters, digits and underscore. *)
Definition is_word (c : ascii) : bool :=
  let n := nat_of_ascii c in
  (Nat.leb 48 n && Nat.leb n 57) || (Nat.leb 65 n && Nat.leb n 90)
  || (Nat.leb 97 n && Nat.leb n 122) || Nat.eqb n 95.

(** [\s] (and the white space removed by [trim]) on 8-bit characters. *)
Definition is_space (c : ascii) : bool :=
  let n := nat_of_ascii c in
  (Nat.leb 9 n && Nat.leb n 13) || Nat.eqb n 32 || Nat.eqb n 160.

Definition is_digit (c : ascii) : bool :=
  let n := nat_of_ascii c in Nat.leb 48 n && Nat.leb n 57.

Definition word_opt (c : option ascii) : bool :=
  match c with Some c => is_word c | None => false end.

Fixpoint prefixb (p s : list ascii) : bool :=
  match p, s with
  | [], _ => true
  | a :: p', b :: s' => Ascii.eqb a b && prefixb p' s'
  | _ :: _, [] => false
  end.

(** [/\bP\b/] matches at the start of [s], the character before being [prev]. *)
Definition wb_at (pat : list ascii) (prev : option ascii) (s : list ascii) : bool :=
  xorb (word_opt prev) (word_opt (hd_error pat))
  && prefixb pat s
  && xorb (word_opt (last (map Some pat) None)) (word_opt (nth_error s (List.length pat))).

(** [/\bP\b/.test(s)]: some position of [s] matches. *)
Fixpoint wb_search (pat : list ascii) (prev : option ascii) (s : list ascii) : bool :=
  wb_at pat prev s
  || match s with
     | [] => false
     | c :: r => wb_search pat (Some c) r
     end.

Definition wb_test (pat : string) (s : list ascii) : bool :=
  wb_search (list_ascii_of_string pat) None s.

(** [s.replace(/\[[^\]]*\]\s*/g, '')], scanned left to right: [HBracket]
    holds the text of a bracket not yet closed, which is kept verbatim when
    no closing bracket follows; [HSkip] drops the white space after a
    removed header. *)
Inductive hdr_mode := HNormal | HBracket | HSkip.

Fixpoint strip_hdr (m : hdr_mode) (buf : list ascii) (s : list ascii) : list ascii :=
  match s with
  | [] => match m with HBracket => buf | _ => [] end
  | c :: r =>
      let normal := if Ascii.eqb c "[" then strip_hdr HBracket [c] r
                    else c :: strip_hdr HNormal [] r in
      match m with
      | HBracket =>
          if Ascii.eqb c "]" then strip_hdr HSkip [] r
          else strip_hdr HBracket (buf ++ [c]) r
      | HSkip => if is_space c then strip_hdr HSkip [] r else normal
      | HNormal => normal
      end
  end.

Definition strip_headers (s : list ascii) : list ascii := strip_hdr HNormal [] s.

Fixpoint drop_spaces (s : list ascii) : list ascii :=
  match s with
  | c :: r => if is_space c then drop_spaces r else s
  | [] => []
  end.

(** [s.trim()] *)
Definition trim (s : list ascii) : list ascii := rev (drop_spaces (rev (drop_spaces s))).

(** The longest prefix of [s] without a double quote, and the rest. *)
Fixpoint take_nonquote (s : list ascii) : list ascii * list ascii :=
  match s with
  | c :: r =>
      if Ascii.eqb c dq then ([], s)
      else let '(v, rest) := take_nonquote r in (c :: v, rest)
  | [] => ([], [])
  end.

(** The regular expression [\[T (quote)([^(quote)]+)(quote)\]] at the start of [s]: the captured value. *)
Definition tag_at (t : string) (s : list ascii) : option (list ascii) :=
  let opening := list_ascii_of_string ("[" ++ t ++ " ")%string ++ [dq] in
  if prefixb opening s then
    let '(v, rest) := take_nonquote (skipn (List.length opening) s) in
    match v with
    | [] => None
    | _ => if prefixb [dq; "]"%char] rest then Some v else None
    end
  else None.

(** [s.match(re)?.[1]] for the tag regular expression of [tag_at]: the leftmost match. *)
Fixpoint find_tag (t : string) (s : list ascii) : option (list ascii) :=
  match tag_at t s with
  | Some v => Some v
  | None => match s with [] => None | _ :: r => find_tag t r end
  end.

(** [s.split(sep)] for a non-empty separator; [cur] is the current piece,
    reversed; [fuel] bounds the number of characters consumed. *)
Fixpoint split_aux (fuel : nat) (sep cur s : list ascii) : list (list ascii) :=
  match fuel with
  | O => [rev cur ++ s]
  | S f =>
      match s with
      | [] => [rev cur]
      | c :: r =>
          if prefixb sep s then rev cur :: split_aux f sep [] (skipn (List.length sep) s)
          else split_aux f sep (c :: cur) r
      end
  end.

Definition split (sep : string) (s : string) : list string :=
  let l := list_ascii_of_string s in
  map string_of_list_ascii (split_aux (S (List.length l)) (list_ascii_of_string sep) [] l).

(** [parts.join(sep)] *)
Fixpoint join (sep : string) (parts : list string) : string :=
  match parts with
  | [] => EmptyString
  | [p] => p
  | p :: ps => (p ++ sep ++ join sep ps)%string
  end.

Fixpoint digits_then_dot (s : list ascii) : bool :=
  match s with
  | c :: r => if is_digit c then digits_then_dot r else Ascii.eqb c "."
  | [] => false
  end.

(** [/^\d+\./.test(part)] *)
Definition is_move_token (part : string) : bool :=
  match list_ascii_of_string part with
  | c :: r => is_digit c && digits_then_dot r
  | [] => false
  end.

End Scan.

(* ------------------------------------------------------------------ *)
(** ** Castling *)

Inductive Castling := Kingside | Queenside | NoCastle.

(** [detectCastling(pgn)] *)
Definition detectCastling (p : string) : Castling :=
  let movesSection := Scan.trim (Scan.strip_headers (list_ascii_of_string p)) in
  if Scan.wb_test "O-O-O" movesSection then Queenside
  else if Scan.wb_test "O-O" movesSection then Kingside
  else NoCastle.

(** A counter per castling type, as the objects [counts] and [wins]. *)
Record PerCastling := { c_kingside : nat; c_queenside : nat; c_none : nat }.

Definition pc_zero : PerCastling := {| c_kingside := 0; c_queenside := 0; c_none := 0 |}.

(** [o[castling]++] *)
Definition bump (c : Castling) (o : PerCastling) : PerCastling :=
  match c with
  | Kingside => {| c_kingside := S (c_kingside o); c_queenside := c_queenside o; c_none := c_none o |}
  | Queenside => {| c_kingside := c_kingside o; c_queenside := S (c_queenside o); c_none := c_none o |}
  | NoCastle => {| c_kingside := c_kingside o; c_queenside := c_queenside o; c_none := S (c_none o) |}
  end.

Record CastlingStats := {
  kingsidePct : num;
  queensidePct : num;
  noCastlePct : num;
  kingsideWinPct : num;
  queensideWinPct : num;
  noCastleWinPct : num;
  counts : PerCastling
}.

(** [Math.round((k / total) * 100) || 0] *)
Definition sharePct (k total : nat) : num :=
  or_zero (round (mul (div (of_nat k) (of_nat total)) (of_nat 100))).

(** One iteration of the loop of [computeCastlingStats] on [(counts, wins)]. *)
Definition castling_step (u : string) (acc : PerCastling * PerCastling) (game : ChessGame)
  : PerCastling * PerCastling :=
  let '(cs, ws) := acc in
  let castling := detectCastling (pgn game) in
  let isWin := GameResult_eqb (getResult game u) Win in
  (bump castling cs, if isWin then bump castling ws else ws).

(** [computeCastlingStats(games, username)] *)
Definition computeCastlingStats (games : list ChessGame) (u : string) : CastlingStats :=
  let '(cs, ws) := fold_left (castling_step u) games (pc_zero, pc_zero) in
  let total := List.length games in
  {| kingsidePct := sharePct (c_kingside cs) total;
     queensidePct := sharePct (c_queenside cs) total;
     noCastlePct := sharePct (c_none cs) total;
     kingsideWinPct := winPct (c_kingside ws) (c_kingside cs);
     queensideWinPct := winPct (c_queenside ws) (c_queenside cs);
     noCastleWinPct := winPct (c_none ws) (c_none cs);
     counts := cs |}.

(* ------------------------------------------------------------------ *)
(** ** Openings *)

Definition unknown_opening : string := "Unknown Opening".

(** The name segments before the first move-number token. *)
Fixpoint name_parts (parts : list string) : list string :=
  match parts with
  | [] => []
  | p :: ps => if Scan.is_move_token p then [] else p :: name_parts ps
  end.

(** [parseOpeningNameFromUrl(url)] *)
Definition parseOpeningNameFromUrl (url : string) : string :=
  match nth_error (Scan.split "/openings/" url) 1 with
  | None | Some EmptyString => unknown_opening
  | Some path =>
      match Scan.join " " (name_parts (Scan.split "-" path)) with
      | EmptyString => unknown_opening
      | n => n
      end
  end.

Record Opening := { eco : string; name : string }.

(** [extractOpening(pgn)] *)
Definition extractOpening (p : string) : Opening :=
  let s := list_ascii_of_string p in
  let ecoMatch := Scan.find_tag "ECO" s in
  let openingMatch := Scan.find_tag "Opening" s in
  let ecoUrlMatch := Scan.find_tag "ECOUrl" s in
  let nm := match openingMatch with
            | Some v => string_of_list_ascii v
            | None => match ecoUrlMatch with
                      | Some v => parseOpeningNameFromUrl (string_of_list_ascii v)
                      | None => unknown_opening
                      end
            end in
  {| eco := match ecoMatch with Some v => string_of_list_ascii v | None => "Unknown" end;
     name := nm |}.

(* ------------------------------------------------------------------ *)
(** ** [Array.prototype.sort] with a descending numeric comparator

    [xs.sort((a, b) => key(b) - key(a))]: the sort of the language is
    stable, so the result is the stable descending sort, computed here by
    insertion: an element goes after every element whose key is at least
    its own. *)

Section StableSort.

Context {A : Type} (key : A -> Z).

Fixpoint insert_desc (x : A) (l : list A) : list A :=
  match l with
  | [] => [x]
  | y :: r => if key x <=? key y then y :: insert_desc x r else x :: l
  end.

Definition sort_desc (l : list A) : list A :=
  fold_left (fun acc x => insert_desc x acc) l [].

End StableSort.

(** The order produced by [sort_desc key]: keys do not increase. *)
Definition desc {A : Type} (key : A -> Z) (a b : A) : Prop := key b <= key a.

(* ------------------------------------------------------------------ *)
(** ** Tactics detector ([computeTacticsStats])

    The chess rules come from the chess.js library (version 1 API:
    [loadPgn] throws on a movetext it cannot replay, [move] throws on an
    illegal move).  The library is a collaborator: the detector is defined
    for any engine, given as the record below.  A thrown exception is
    [None]; [board.undo()] after [board.move(m)] restores the board, so the
    speculative move is applied to a copy. *)

Record Engine := {
  Board : Type;
  (** [new Chess()] *)
  new_board : Board;
  (** [fullGame.loadPgn(pgn); fullGame.history()] *)
  load_history : string -> option (list string);
  (** [board.turn() === 'w'] *)
  turn_white : Board -> bool;
  (** [board.moves()] *)
  legal_moves : Board -> list string;
  (** [board.move(m)] *)
  play : Board -> string -> option Board;
  (** [board.isCheckmate()] *)
  isCheckmate : Board -> bool
}.

Record TacticsStats := {
  gamesAnalyzed : nat;
  missedMates : nat;
  matesPlayed : nat
}.

(** The counters [missedMates] and [matesPlayed], local variables of
    [computeTacticsStats] that the loop body mutates. *)
Record Counters := { missed : nat; played : nat }.

Definition counters0 : Counters := {| missed := 0; played := 0 |}.

(** The body of the [try] block: a state monad over the counters in which
    an exception ends the computation and keeps the counters it reached. *)
Inductive outcome (A : Type) :=
  | Ok (a : A) (c : Counters)
  | Thrown (c : Counters).
Arguments Ok {A}.
Arguments Thrown {A}.

Definition M (A : Type) := Counters -> outcome A.

Definition ret {A} (a : A) : M A := fun c => Ok a c.
Definition bind {A B} (m : M A) (k : A -> M B) : M B :=
  fun c => match m c with Ok a c' => k a c' | Thrown c' => Thrown c' end.
Definition lift {A} (o : option A) : M A :=
  fun c => match o with Some a => Ok a c | None => Thrown c end.
Definition incr_missed : M unit :=
  fun c => Ok tt {| missed := S (missed c); played := played c |}.
Definition incr_played : M unit :=
  fun c => Ok tt {| missed := missed c; played := S (played c) |}.

Notation "x <- m ;; k" := (bind m (fun x => k)) (at level 61, m at next level, right associativity).

Section Detector.

Variable E : Engine.

(** The scan over [board.moves()] for a move that mates, stopping at the
    first one ([break]); [None] when [board.move(m)] throws. *)
Fixpoint mate_in_one (b : Board E) (moves : list string) : option bool :=
  match moves with
  | [] => Some false
  | m :: ms =>
      match play E b m with
      | None => None
      | Some b' => if isCheckmate E b' then Some true else mate_in_one b ms
      end
  end.

(** The loop over [history], from the live [board]. *)
Fixpoint replay (asWhite : bool) (board : Board E) (history : list string) : M unit :=
  match history with
  | [] => ret tt
  | h :: hs =>
      let isPlayerTurn := Bool.eqb (turn_white E board) asWhite in
      if isPlayerTurn then
        hasMateInOne <- lift (mate_in_one board (legal_moves E board)) ;;
        if hasMateInOne then
          b' <- lift (play E board h) ;;
          _ <- (if isCheckmate E b' then incr_played else incr_missed) ;;
          replay asWhite b' hs
        else
          b' <- lift (play E board h) ;;
          replay asWhite b' hs
      else
        b' <- lift (play E board h) ;;
        replay asWhite b' hs
  end.

(** The [try] block for one game. *)
Definition analyse_game (u : string) (game : ChessGame) : M unit :=
  history <- lift (load_history E (pgn game)) ;;
  replay (playedAsWhite game u) (new_board E) history.

(** [try { ... } catch { }]: the counters reached are kept either way. *)
Definition run_game (u : string) (c : Counters) (game : ChessGame) : Counters :=
  match analyse_game u game c with
  | Ok _ c' => c'
  | Thrown c' => c'
  end.

(** [for (const game of sample) ...] *)
Definition tactics_loop (u : string) (sample : list ChessGame) : Counters :=
  fold_left (run_game u) sample counters0.

(** [[...games].sort((a, b) => b.end_time - a.end_time).slice(0, 100)] *)
Definition tactics_sample (games : list ChessGame) : list ChessGame :=
  firstn 100 (sort_desc end_time games).

(** [computeTacticsStats(games, username)] *)
Definition computeTacticsStats (games : list ChessGame) (u : string) : TacticsStats :=
  let sample := tactics_sample games in
  let c := tactics_loop u sample in
  {| gamesAnalyzed := List.length sample; missedMates := missed c; matesPlayed := played c |}.

End Detector.

(* ------------------------------------------------------------------ *)
(** ** Opening statistics ([computeOpeningStats]) *)

Inductive Color := White | Black.

(** The value type of the [map] of [computeOpeningStats]. *)
Record OpeningAcc := {
  oa_eco : string;
  oa_name : string;
  oa_wins : nat;
  oa_losses : nat;
  oa_draws : nat
}.

(** A [Map<string, _>]: entries in insertion order; [set] on a present key
    replaces the value in place, on a new key appends the entry. *)
Fixpoint map_get {V} (k : string) (m : list (string * V)) : option V :=
  match m with
  | [] => None
  | (k', v) :: r => if String.eqb k k' then Some v else map_get k r
  end.

Fixpoint map_set {V} (k : string) (v : V) (m : list (string * V)) : list (string * V) :=
  match m with
  | [] => [(k, v)]
  | (k', v') :: r => if String.eqb k k' then (k', v) :: r else (k', v') :: map_set k v r
  end.

(** [(color === 'white') !== asWhite] is false: the game is kept. *)
Definition side_kept (u : string) (color : Color) (game : ChessGame) : bool :=
  Bool.eqb (match color with White => true | Black => false end) (playedAsWhite game u).

(** The grouping part of the loop body, once the game is kept. *)
Definition group_game (u : string) (m : list (string * OpeningAcc)) (game : ChessGame)
  : list (string * OpeningAcc) :=
  let o := extractOpening (pgn game) in
  let key := eco o in
  let existing := match map_get key m with
                  | Some e => e
                  | None => {| oa_eco := eco o; oa_name := name o; oa_wins := 0;
                               oa_losses := 0; oa_draws := 0 |}
                  end in
  let updated := match getResult game u with
                 | Win => {| oa_eco := oa_eco existing; oa_name := oa_name existing;
                             oa_wins := S (oa_wins existing); oa_losses := oa_losses existing;
                             oa_draws := oa_draws existing |}
                 | Loss => {| oa_eco := oa_eco existing; oa_name := oa_name existing;
                              oa_wins := oa_wins existing; oa_losses := S (oa_losses existing);
                              oa_draws := oa_draws existing |}
                 | Draw => {| oa_eco := oa_eco existing; oa_name := oa_name existing;
                              oa_wins := oa_wins existing; oa_losses := oa_losses existing;
                              oa_draws := S (oa_draws existing) |}
                 end in
  map_set key updated m.

(** The loop body of [computeOpeningStats]. *)
Definition opening_step (u : string) (color : Color) (m : list (string * OpeningAcc))
  (game : ChessGame) : list (string * OpeningAcc) :=
  if side_kept u color game then group_game u m game else m.

Record OpeningStats := {
  os_eco : string;
  os_name : string;
  os_wins : nat;
  os_losses : nat;
  os_draws : nat;
  os_count : nat;
  os_winPct : num
}.

(** [(o) => ({ ...o, count: ..., winPct: ... })] *)
Definition with_count (o : OpeningAcc) : OpeningStats :=
  let n := (oa_wins o + oa_losses o + oa_draws o)%nat in
  {| os_eco := oa_eco o; os_name := oa_name o; os_wins := oa_wins o;
     os_losses := oa_losses o; os_draws := oa_draws o; os_count := n;
     os_winPct := winPct (oa_wins o) n |}.

Definition count_key (o : OpeningStats) : Z := Z.of_nat (os_count o).

(** [Array.from(map.values()).map(with_count)] *)
Definition opening_groups (games : list ChessGame) (u : string) (color : Color)
  : list OpeningStats :=
  map (fun kv => with_count (snd kv)) (fold_left (opening_step u color) games []).

(** [computeOpeningStats(games, username, color, topN)]; the default
    [topN] is 10. *)
Definition computeOpeningStats (games : list ChessGame) (u : string) (color : Color)
  (topN : nat) : list OpeningStats :=
  firstn topN (sort_desc count_key (opening_groups games u color)).

Definition default_topN : nat := 10.

(** The opening code of a game. *)
Definition eco_of (g : ChessGame) : string := eco (extractOpening (pgn g)).

(** The codes of a list in order of first occurrence. *)
Definition first_occurrences (l : list string) : list string :=
  fold_left (fun acc k => if existsb (String.eqb k) acc then acc else acc ++ [k]) l [].

(** The games counted by an accumulator. *)
Definition acc_total (o : OpeningAcc) : nat := (oa_wins o + oa_losses o + oa_draws o)%nat.

(** The number of games of [gs] with opening code [k]. *)
Definition eco_count (gs : list ChessGame) (k : string) : nat :=
  List.length (filter (fun g => String.eqb (eco_of g) k) gs).

(** The map of [opening_step] after the kept games [gs]: one entry per
    code met, keyed by its code and counting its games. *)
Definition group_inv (m : list (string * OpeningAcc)) (gs : list ChessGame) : Prop :=
  (forall k v, In (k, v) m -> oa_eco v = k /\ acc_total v = eco_count gs k) /\
  NoDup (map fst m) /\
  (forall k, ~ In k (map fst m) -> eco_count gs k = 0%nat).

(* ------------------------------------------------------------------ *)
(** ** Offload manager ([useTacticsWorker] and the tactics worker)

    The hook keeps [stats] and [loading]; its effect, re-run whenever
    [games] or [username] change, first runs the cleanup of the previous
    run ([worker.terminate()]), then creates a worker and posts it the
    request.  The worker replies with [computeTacticsStats(games, username)],
    and the reply is dispatched on the page's single thread, where
    [onmessage] sets [stats].  [terminate()] stops the worker and empties
    the queue of the messages it posted that were not dispatched yet
    (HTML, terminate a worker).  The computation of the worker is the
    parameter [work]. *)

Module Offload.

Section Manager.

Variable work : list ChessGame -> string -> TacticsStats.

Record Worker := { w_id : nat; w_games : list ChessGame; w_user : string }.

Record State := {
  stats : option TacticsStats;
  loading : bool;
  (** the worker created by the last run of the effect, not cleaned up *)
  current : option Worker;
  (** workers that received the request and did not reply yet *)
  jobs : list Worker;
  (** replies posted by workers, not dispatched yet: worker id and data *)
  outbox : list (nat * TacticsStats);
  next_id : nat;
  (** the last [games] and [username] the effect ran with *)
  inputs : list ChessGame * string
}.

Definition init : State :=
  {| stats := None; loading := false; current := None; jobs := []; outbox := [];
     next_id := 0; inputs := ([], EmptyString) |}.

(** [worker.terminate()] for the worker with id [i]. *)
Definition terminate (i : nat) (s : State) : State :=
  {| stats := stats s; loading := loading s; current := current s;
     jobs := filter (fun w => negb (Nat.eqb (w_id w) i)) (jobs s);
     outbox := filter (fun m => negb (Nat.eqb (fst m) i)) (outbox s);
     next_id := next_id s; inputs := inputs s |}.

(** The cleanup of the previous run of the effect. *)
Definition cleanup (s : State) : State :=
  match current s with
  | Some w => let s' := terminate (w_id w) s in
              {| stats := stats s'; loading := loading s'; current := None;
                 jobs := jobs s'; outbox := outbox s'; next_id := next_id s';
                 inputs := inputs s' |}
  | None => s
  end.

(** The body of the effect for [games] and [username]. *)
Definition effect (games : list ChessGame) (u : string) (s : State) : State :=
  match games with
  | [] => {| stats := None; loading := false; current := None; jobs := jobs s;
             outbox := outbox s; next_id := next_id s; inputs := (games, u) |}
  | _ :: _ =>
      let w := {| w_id := next_id s; w_games := games; w_user := u |} in
      {| stats := None; loading := true; current := Some w; jobs := jobs s ++ [w];
         outbox := outbox s; next_id := S (next_id s); inputs := (games, u) |}
  end.

Inductive step : State -> State -> Prop :=
  (** the dependencies changed: cleanup, then the effect *)
  | step_inputs games u s :
      step s (effect games u (cleanup s))
  (** a worker finishes and posts its reply *)
  | step_reply s w j1 j2 :
      jobs s = j1 ++ w :: j2 ->
      step s {| stats := stats s; loading := loading s; current := current s;
                jobs := j1 ++ j2;
                outbox := outbox s ++ [(w_id w, work (w_games w) (w_user w))];
                next_id := next_id s; inputs := inputs s |}
  (** a posted reply is dispatched: [onmessage] of its worker *)
  | step_deliver s i r o1 o2 :
      outbox s = o1 ++ (i, r) :: o2 ->
      step s {| stats := Some r; loading := false; current := current s;
                jobs := jobs s; outbox := o1 ++ o2;
                next_id := next_id s; inputs := inputs s |}
  (** the component unmounts: the last cleanup *)
  | step_unmount s :
      step s (cleanup s).

Inductive reachable : State -> Prop :=
  | reach_init : reachable init
  | reach_step s s' : reachable s -> step s s' -> reachable s'.

(** The invariant of the reachable states: at most one job, run by the
    current worker; every queued reply comes from the current worker and
    is its result; the current worker was given the latest inputs; shown
    stats are the result for the latest inputs. *)
Definition inv (s : State) : Prop :=
  (forall w, In w (jobs s) -> current s = Some w) /\
  (List.length (jobs s) <= 1)%nat /\
  (forall i r, In (i, r) (outbox s) ->
     exists w, current s = Some w /\ w_id w = i /\ r = work (w_games w) (w_user w)) /\
  (forall w, current s = Some w -> (w_games w, w_user w) = inputs s) /\
  (forall r, stats s = Some r -> r = work (fst (inputs s)) (snd (inputs s))).

End Manager.

End Offload.

(* ------------------------------------------------------------------ *)
(** ** Calendar statistics ([computeCalendarStats])

    [new Date(game.end_time * 1000).getHours()] and [.getDay()] read the
    local time zone; they are the parameters [hour_of] and [day_of], with
    [None] for the NaN of an invalid date.  [hourMap.get(hour)!] is
    [undefined] for a key out of range, and [hEntry.games++] then throws:
    the result is [None]. *)

Section Calendar.

Variables hour_of day_of : Z -> option nat.

Record Bucket := { b_games : nat; b_wins : nat }.

Definition bucket0 : Bucket := {| b_games := 0; b_wins := 0 |}.

(** [entry.games++; if (isWin) entry.wins++] on the entry of key [i]. *)
Definition bump_bucket (i : option nat) (isWin : bool) (bs : list Bucket) : option (list Bucket) :=
  match i with
  | None => None
  | Some i =>
      match nth_error bs i with
      | None => None
      | Some b =>
          let b' := {| b_games := S (b_games b);
                       b_wins := if isWin then S (b_wins b) else b_wins b |} in
          Some (firstn i bs ++ b' :: skipn (S i) bs)
      end
  end.

Definition calendar_step (u : string) (acc : option (list Bucket * list Bucket)) (game : ChessGame)
  : option (list Bucket * list Bucket) :=
  match acc with
  | None => None
  | Some (hs, ds) =>
      let isWin := GameResult_eqb (getResult game u) Win in
      match bump_bucket (hour_of (end_time game)) isWin hs with
      | None => None
      | Some hs' =>
          match bump_bucket (day_of (end_time game)) isWin ds with
          | None => None
          | Some ds' => Some (hs', ds')
          end
      end
  end.

(** One entry of [hourOfDay] or [dayOfWeek]: key, games, wins, winPct. *)
Record CalendarEntry := { ce_key : nat; ce_games : nat; ce_wins : nat; ce_winPct : num }.

Definition entries (bs : list Bucket) : list CalendarEntry :=
  map (fun kb => {| ce_key := fst kb; ce_games := b_games (snd kb); ce_wins := b_wins (snd kb);
                    ce_winPct := winPct (b_wins (snd kb)) (b_games (snd kb)) |})
      (combine (seq 0 (List.length bs)) bs).

Record CalendarStats := { hourOfDay : list CalendarEntry; dayOfWeek : list CalendarEntry }.

(** [computeCalendarStats(games, username)]; [None] when it throws. *)
Definition computeCalendarStats (games : list ChessGame) (u : string) : option CalendarStats :=
  match fold_left (calendar_step u) games (Some (repeat bucket0 24, repeat bucket0 7)) with
  | None => None
  | Some (hs, ds) => Some {| hourOfDay := entries hs; dayOfWeek := entries ds |}
  end.

End Calendar.

(** A bucket counts no more wins than games. *)
Definition bucket_ok (b : Bucket) : Prop := (b_wins b <= b_games b)%nat.

Definition Castling_eqb (a b : Castling) : bool :=
  match a, b with
  | Kingside, Kingside | Queenside, Queenside | NoCastle, NoCastle => true
  | _, _ => false
  end.

(** The games classified as [c] by [detectCastling]. *)
Definition castled_as (c : Castling) (game : ChessGame) : bool := Castling_eqb (detectCastling (pgn game)) c.

(** The games won by the subject. *)
Definition won (u : string) (game : ChessGame) : bool := GameResult_eqb (getResult game u) Win.

(** An index that [bump_bucket] cannot update in a table of [n] entries. *)
Definition bad_index (i : option nat) (n : nat) : Prop :=
  match i with Some i => (n <= i)%nat | None => True end.

(** Componentwise order of castling counters. *)
Definition pc_le (a b : PerCastling) : Prop :=
  (c_kingside a <= c_kingside b /\ c_queenside a <= c_queenside b /\ c_none a <= c_none b)%nat.

(** The reading of the spec for a percentage: [(n / d) * 100] computed
    exactly and rounded half up, 0 when [d] is 0. *)
Definition half_up_pct (n d : nat) : Z :=
  if Nat.eqb d 0 then 0
  else (200 * Z.of_nat n + Z.of_nat d) / (2 * Z.of_nat d).

(* ------------------------------------------------------------------ *)
(** ** Rating history ([computeRatingHistory]) *)

Record RatingPoint := { rp_date : Z; rp_rating : Z; rp_gameType : string }.

(** The point pushed for one game. *)
Definition rating_point (u : string) (game : ChessGame) : RatingPoint :=
  let asWhite := playedAsWhite game u in
  {| rp_date := end_time game;
     rp_rating := if asWhite then rating (white game) else rating (black game);
     rp_gameType := time_class game |}.

(** [computeRatingHistory(games, username)]: [points.sort((a, b) => a.date - b.date)]
    is the comparator [key(b) - key(a)] of [sort_desc] for [key p = - p.date]. *)
Definition computeRatingHistory (games : list ChessGame) (u : string) : list RatingPoint :=
  sort_desc (fun p => - rp_date p) (map (rating_point u) games).

(* ------------------------------------------------------------------ *)
(** ** Game phases ([classifyGamePhase], [computeGamePhaseStats]) *)

(** [(pgn.match(/\d+\./g) ?? []).length]: a match starts at the first digit
    of a maximal run of digits followed by a dot (a run not followed by a
    dot fails at each of its positions), so the matches are counted by
    one scan; [in_digits] tells whether the previous character is a digit. *)
Fixpoint count_move_numbers (in_digits : bool) (s : list ascii) : nat :=
  match s with
  | [] => 0
  | c :: r =>
      if Scan.is_digit c then count_move_numbers true r
      else if in_digits && Ascii.eqb c "." then S (count_move_numbers false r)
      else count_move_numbers false r
  end.

Inductive GamePhase := PhaseOpening | PhaseMiddlegame | PhaseEndgame.

Definition GamePhase_eqb (a b : GamePhase) : bool :=
  match a, b with
  | PhaseOpening, PhaseOpening | PhaseMiddlegame, PhaseMiddlegame
  | PhaseEndgame, PhaseEndgame => true
  | _, _ => false
  end.

(** [classifyGamePhase(pgn)] *)
Definition classifyGamePhase (p : string) : GamePhase :=
  let moveCount := count_move_numbers false (list_ascii_of_string p) in
  if Nat.ltb moveCount 12 then PhaseOpening
  else if Nat.ltb moveCount 40 then PhaseMiddlegame
  else PhaseEndgame.

(** The order of the phases. *)
Definition phase_rank (p : GamePhase) : nat :=
  match p with PhaseOpening => 0 | PhaseMiddlegame => 1 | PhaseEndgame => 2 end.

(** [phaseData]: the counters [(wins, losses, draws)] of each phase. *)
Record PhaseData := {
  pd_opening : nat * nat * nat;
  pd_middlegame : nat * nat * nat;
  pd_endgame : nat * nat * nat
}.

(** The loop body of [computeGamePhaseStats]: the counters of the phase of
    the game are updated as in [computeResultCounts]. *)
Definition phase_step (u : string) (pd : PhaseData) (game : ChessGame) : PhaseData :=
  match classifyGamePhase (pgn game) with
  | PhaseOpening => {| pd_opening := tally u (pd_opening pd) game;
                       pd_middlegame := pd_middlegame pd; pd_endgame := pd_endgame pd |}
  | PhaseMiddlegame => {| pd_opening := pd_opening pd;
                          pd_middlegame := tally u (pd_middlegame pd) game;
                          pd_endgame := pd_endgame pd |}
  | PhaseEndgame => {| pd_opening := pd_opening pd; pd_middlegame := pd_middlegame pd;
                       pd_endgame := tally u (pd_endgame pd) game |}
  end.

Record GamePhaseStats := {
  gp_opening : GameResultCounts;
  gp_middlegame : GameResultCounts;
  gp_endgame : GameResultCounts
}.

Definition results_of (t : nat * nat * nat) : GameResultCounts :=
  let '(w, l, d) := t in makeResultCounts w l d.

(** [computeGamePhaseStats(games, username)] *)
Definition computeGamePhaseStats (games : list ChessGame) (u : string) : GamePhaseStats :=
  let pd := fold_left (phase_step u) games
              {| pd_opening := (0, 0, 0); pd_middlegame := (0, 0, 0); pd_endgame := (0, 0, 0) |}%nat in
  {| gp_opening := results_of (pd_opening pd);
     gp_middlegame := results_of (pd_middlegame pd);
     gp_endgame := results_of (pd_endgame pd) |}.

(** The games of phase [ph]. *)
Definition in_phase (ph : GamePhase) (game : ChessGame) : bool :=
  GamePhase_eqb (classifyGamePhase (pgn game)) ph.

(* ------------------------------------------------------------------ *)
(** ** Piece moves ([parsePgnMoveTokens], [classifyMove],
    [computePieceMoveFrequency]) *)

Module Pgn.

(** [s.replace(/\{[^}]*\}/g, '')] and [s.replace(/\([^)]*\)/g, '')] for the
    delimiters [o] and [c]: [buf] holds the text from an opening delimiter
    not closed yet, kept verbatim when no closing delimiter follows. *)
Fixpoint strip_pair (o c : ascii) (buf : option (list ascii)) (s : list ascii) : list ascii :=
  match s with
  | [] => match buf with Some b => b | None => [] end
  | x :: r =>
      match buf with
      | Some b => if Ascii.eqb x c then strip_pair o c None r else strip_pair o c (Some (b ++ [x])) r
      | None => if Ascii.eqb x o then strip_pair o c (Some [x]) r else x :: strip_pair o c None r
      end
  end.

(** [s.replace(/\$\d+/g, '')]: [in_nag] while the digits of a removed
    annotation are skipped. *)
Fixpoint strip_nags (in_nag : bool) (s : list ascii) : list ascii :=
  match s with
  | [] => []
  | c :: r =>
      if in_nag && Scan.is_digit c then strip_nags true r
      else if Ascii.eqb c "$" && match r with d :: _ => Scan.is_digit d | [] => false end
      then strip_nags true r
      else c :: strip_nags false r
  end.

(** [s.replace(/1-0|0-1|1\/2-1\/2|\*/g, '')]: at each position the
    alternatives are tried in order. *)
Fixpoint strip_results (s : list ascii) : list ascii :=
  match s with
  | [] => []
  | c :: r =>
      let rest := if Ascii.eqb c "*" then strip_results r else c :: strip_results r in
      match r with
      | _ :: _ :: r3 =>
          if Scan.prefixb (list_ascii_of_string "1-0") s || Scan.prefixb (list_ascii_of_string "0-1") s
          then strip_results r3
          else match r3 with
               | _ :: _ :: _ :: _ :: r7 =>
                   if Scan.prefixb (list_ascii_of_string "1/2-1/2") s then strip_results r7 else rest
               | _ => rest
               end
      | _ => rest
      end
  end.

(** [s.split(/\s+/)]: [in_sep] inside a run of white space, [cur] the
    current piece, reversed. *)
Fixpoint split_ws (in_sep : bool) (cur : list ascii) (s : list ascii) : list (list ascii) :=
  match s with
  | [] => [rev cur]
  | c :: r =>
      if Scan.is_space c then
        if in_sep then split_ws true [] r else rev cur :: split_ws true [] r
      else split_ws false (c :: cur) r
  end.

End Pgn.

(** [parsePgnMoveTokens(pgn)] *)
Definition parsePgnMoveTokens (p : string) : list string :=
  let s := Pgn.strip_results
             (Pgn.strip_nags false
                (Pgn.strip_pair "(" ")" None
                   (Pgn.strip_pair "{" "}" None (Scan.strip_headers (list_ascii_of_string p))))) in
  filter (fun t => negb (Scan.is_move_token t))
    (filter (fun t => negb (String.eqb t EmptyString))
       (map string_of_list_ascii (Pgn.split_ws false [] (Scan.trim s)))).

Inductive Piece := Pawn | Knight | Bishop | Rook | Queen | King.

(** [classifyMove(move)] *)
Definition classifyMove (move : string) : option Piece :=
  match move with
  | EmptyString => None
  | String c _ =>
      if Ascii.eqb c "O" then Some King
      else if Ascii.eqb c "N" then Some Knight
      else if Ascii.eqb c "B" then Some Bishop
      else if Ascii.eqb c "R" then Some Rook
      else if Ascii.eqb c "Q" then Some Queen
      else if Nat.leb 97 (nat_of_ascii c) && Nat.leb (nat_of_ascii c) 104 then Some Pawn
      else None
  end.

Record PieceMoveCounts := {
  pm_pawn : nat; pm_knight : nat; pm_bishop : nat; pm_rook : nat; pm_queen : nat; pm_king : nat
}.

Definition pm_zero : PieceMoveCounts :=
  {| pm_pawn := 0; pm_knight := 0; pm_bishop := 0; pm_rook := 0; pm_queen := 0; pm_king := 0 |}.

Definition pm_add (a b : PieceMoveCounts) : PieceMoveCounts :=
  {| pm_pawn := pm_pawn a + pm_pawn b; pm_knight := pm_knight a + pm_knight b;
     pm_bishop := pm_bishop a + pm_bishop b; pm_rook := pm_rook a + pm_rook b;
     pm_queen := pm_queen a + pm_queen b; pm_king := pm_king a + pm_king b |}.

(** [const piece = classifyMove(tokens[i]); if (piece) counts[piece]++] *)
Definition count_piece (counts : PieceMoveCounts) (move : string) : PieceMoveCounts :=
  match classifyMove move with
  | None => counts
  | Some Pawn => {| pm_pawn := S (pm_pawn counts); pm_knight := pm_knight counts;
                    pm_bishop := pm_bishop counts; pm_rook := pm_rook counts;
                    pm_queen := pm_queen counts; pm_king := pm_king counts |}
  | Some Knight => {| pm_pawn := pm_pawn counts; pm_knight := S (pm_knight counts);
                      pm_bishop := pm_bishop counts; pm_rook := pm_rook counts;
                      pm_queen := pm_queen counts; pm_king := pm_king counts |}
  | Some Bishop => {| pm_pawn := pm_pawn counts; pm_knight := pm_knight counts;
                      pm_bishop := S (pm_bishop counts); pm_rook := pm_rook counts;
                      pm_queen := pm_queen counts; pm_king := pm_king counts |}
  | Some Rook => {| pm_pawn := pm_pawn counts; pm_knight := pm_knight counts;
                    pm_bishop := pm_bishop counts; pm_rook := S (pm_rook counts);
                    pm_queen := pm_queen counts; pm_king := pm_king counts |}
  | Some Queen => {| pm_pawn := pm_pawn counts; pm_knight := pm_knight counts;
                     pm_bishop := pm_bishop counts; pm_rook := pm_rook counts;
                     pm_queen := S (pm_queen counts); pm_king := pm_king counts |}
  | Some King => {| pm_pawn := pm_pawn counts; pm_knight := pm_knight counts;
                    pm_bishop := pm_bishop counts; pm_rook := pm_rook counts;
                    pm_queen := pm_queen counts; pm_king := S (pm_king counts) |}
  end.

(** The tokens of index 0, 2, 4, ... *)
Fixpoint every_other (l : list string) : list string :=
  match l with
  | [] => []
  | x :: r => x :: match r with [] => [] | _ :: r' => every_other r' end
  end.

(** [for (let i = asWhite ? 0 : 1; i < tokens.length; i += 2)] *)
Definition player_tokens (asWhite : bool) (tokens : list string) : list string :=
  if asWhite then every_other tokens else every_other (tl tokens).

(** [computePieceMoveFrequency(games, username)] *)
Definition computePieceMoveFrequency (games : list ChessGame) (u : string) : PieceMoveCounts :=
  fold_left (fun counts game =>
               fold_left count_piece
                 (player_tokens (playedAsWhite game u) (parsePgnMoveTokens (pgn game))) counts)
            games pm_zero.

(** The piece counts of a list of tokens. *)
Definition piece_counts (tokens : list string) : PieceMoveCounts := fold_left count_piece tokens pm_zero.

(* ------------------------------------------------------------------ *)
(** ** Dates ([new Date(t).toISOString()]) *)

(** The largest magnitude of a valid time value, in milliseconds. *)
Definition max_time : Z := 8640000000000000.

(** The proleptic Gregorian date [(year, month, day)] of a day number
    counted from 1970-01-01. *)
Definition civil_from_days (days : Z) : Z * Z * Z :=
  let z := days + 719468 in
  let era := z / 146097 in
  let doe := z - era * 146097 in
  let yoe := (doe - doe / 1460 + doe / 36524 - doe / 146096) / 365 in
  let y := yoe + era * 400 in
  let doy := doe - (365 * yoe + yoe / 4 - yoe / 100) in
  let mp := (5 * doy + 2) / 153 in
  let d := doy - (153 * mp + 2) / 5 + 1 in
  let m := if mp <? 10 then mp + 3 else mp - 9 in
  (if m <=? 2 then y + 1 else y, m, d).

Definition digit_char (n : Z) : ascii := ascii_of_nat (48 + Z.to_nat n).

(** The [w] last decimal digits of [n], with leading zeros. *)
Fixpoint pad_digits (w : nat) (n : Z) : list ascii :=
  match w with
  | O => []
  | S w' => pad_digits w' (n / 10) ++ [digit_char (n mod 10)]
  end.

(** The year of an ISO string: four digits in 0 .. 9999, otherwise a
    sign and six digits. *)
Definition iso_year (y : Z) : list ascii :=
  if (0 <=? y) && (y <=? 9999) then pad_digits 4 y
  else (if y <? 0 then "-"%char else "+"%char) :: pad_digits 6 (Z.abs y).

(** [new Date(t).toISOString()] for a time value [t] in milliseconds;
    [None] for the RangeError of an invalid date. *)
Definition toISOString (t : Z) : option string :=
  if Z.abs t <=? max_time then
    let ms := t mod 86400000 in
    let '(y, m, d) := civil_from_days (t / 86400000) in
    Some (string_of_list_ascii
            (iso_year y ++ "-"%char :: pad_digits 2 m ++ "-"%char :: pad_digits 2 d
             ++ "T"%char :: pad_digits 2 (ms / 3600000) ++ ":"%char :: pad_digits 2 (ms / 60000 mod 60)
             ++ ":"%char :: pad_digits 2 (ms / 1000 mod 60) ++ "."%char :: pad_digits 3 (ms mod 1000)
             ++ ["Z"%char]))
  else None.

(** [new Date(game.end_time * 1000).toISOString().slice(0, 10)] *)
Definition day_of_game (game : ChessGame) : option string :=
  option_map (substring 0 10) (toISOString (end_time game * 1000)).

(** [a.localeCompare(b)] on the keys of the heatmap, modelled by the order
    of code units; the two agree on the keys YYYY-MM-DD of the years 0 to
    9999, whose digits and dashes stand at the same places. *)
Definition localeCompare (a b : string) : comparison := String.compare a b.

(** [xs.sort(cmp)] for a comparator returning a [comparison]: stable, an
    element goes after every element it does not compare below. *)
Section CmpSort.

Context {A : Type} (cmp : A -> A -> comparison).

Fixpoint insert_cmp (x : A) (l : list A) : list A :=
  match l with
  | [] => [x]
  | y :: r => match cmp x y with Lt => x :: l | _ => y :: insert_cmp x r end
  end.

Definition sort_cmp (l : list A) : list A := fold_left (fun acc x => insert_cmp x acc) l [].

End CmpSort.

(* ------------------------------------------------------------------ *)
(** ** Activity heatmap ([computeActivityHeatmap]) *)

Record DayActivity := {
  da_date : string; da_count : nat; da_wins : nat; da_losses : nat; da_draws : nat
}.

(** The loop body of [computeActivityHeatmap] on [dayMap]; [None] once
    [toISOString] has thrown. *)
Definition heat_step (u : string) (acc : option (list (string * DayActivity))) (game : ChessGame)
  : option (list (string * DayActivity)) :=
  match acc with
  | None => None
  | Some m =>
      match day_of_game game with
      | None => None
      | Some date =>
          let result := getResult game u in
          let entry := match map_get date m with
                       | Some e => e
                       | None => {| da_date := date; da_count := 0; da_wins := 0;
                                    da_losses := 0; da_draws := 0 |}
                       end in
          let entry' := {| da_date := da_date entry; da_count := S (da_count entry);
                           da_wins := match result with Win => S (da_wins entry) | _ => da_wins entry end;
                           da_losses := match result with Loss => S (da_losses entry) | _ => da_losses entry end;
                           da_draws := match result with Draw => S (da_draws entry) | _ => da_draws entry end |} in
          Some (map_set date entry' m)
      end
  end.

(** [computeActivityHeatmap(games, username)]; [None] when it throws. *)
Definition computeActivityHeatmap (games : list ChessGame) (u : string) : option (list DayActivity) :=
  match fold_left (heat_step u) games (Some []) with
  | None => None
  | Some m => Some (sort_cmp (fun a b => localeCompare (da_date a) (da_date b)) (map snd m))
  end.

(** The games of the day [d]. *)
Definition games_of_day (games : list ChessGame) (d : string) : list ChessGame :=
  filter (fun g => match day_of_game g with Some d' => String.eqb d' d | None => false end) games.

(** The number of games of the day [d], and of those with the result [r]. *)
Definition games_on (games : list ChessGame) (d : string) : nat := List.length (games_of_day games d).

Definition results_on (games : list ChessGame) (u : string) (d : string) (r : GameResult) : nat :=
  List.length (filter (fun g => GameResult_eqb (getResult g u) r) (games_of_day games d)).

Fixpoint sum_counts (ds : list DayActivity) : nat :=
  match ds with [] => 0 | a :: r => da_count a + sum_counts r end.

(** What [dayMap] holds after the games [seen]: one entry per day, keyed
    by its date, counting the games of that day and their results. *)
Definition heat_inv (u : string) (seen : list ChessGame) (m : list (string * DayActivity)) : Prop :=
  NoDup (map fst m) /\
  (forall k e, In (k, e) m ->
     da_date e = k /\ da_count e = games_on seen k /\ da_wins e = results_on seen u k Win /\
     da_losses e = results_on seen u k Loss /\ da_draws e = results_on seen u k Draw) /\
  (forall g, In g seen -> exists d, day_of_game g = Some d /\ In d (map fst m)) /\
  sum_counts (map snd m) = List.length seen.

(* ------------------------------------------------------------------ *)
(** ** Opponents ([extractOpponentUsernames], [computeOpponentCountryStats],
    [useLoadOpponentCountries]) *)

(** [(asWhite ? game.black.username : game.white.username).toLowerCase()] *)
Definition opponent_of (game : ChessGame) (u : string) : string :=
  toLowerCase (if playedAsWhite game u then username (black game) else username (white game)).

(** [set.add(x)] on a set listed in insertion order. *)
Definition set_add (s : list string) (x : string) : list string :=
  if existsb (String.eqb x) s then s else s ++ [x].

(** [extractOpponentUsernames(games, username)] *)
Definition extractOpponentUsernames (games : list ChessGame) (u : string) : list string :=
  fold_left (fun acc g => set_add acc (opponent_of g u)) games [].

(** The values read from a [Record<string, string>] object: its own string
    properties, or what it inherits from [Object.prototype]. *)
Inductive JsValue :=
  | JsString (s : string)
  | JsUndefined
  | JsBuiltin (name : string)
  | JsObjectPrototype.

(** The methods of [Object.prototype]. *)
Definition object_prototype_methods : list string :=
  ["constructor"; "hasOwnProperty"; "isPrototypeOf"; "propertyIsEnumerable"; "toString";
   "valueOf"; "toLocaleString"; "__defineGetter__"; "__defineSetter__"; "__lookupGetter__";
   "__lookupSetter__"]%string.

(** [obj[k]] for a plain object with own properties [own]: the accessor
    [__proto__] of [Object.prototype] gives [Object.prototype]. *)
Definition get_prop (own : list (string * string)) (k : string) : JsValue :=
  match map_get k own with
  | Some v => JsString v
  | None =>
      if String.eqb k "__proto__" then JsObjectPrototype
      else if existsb (String.eqb k) object_prototype_methods then JsBuiltin k
      else JsUndefined
  end.

(** [obj[k] = v] for a string [v]: the setter [__proto__] ignores a value
    that is not an object. *)
Definition set_prop (own : list (string * string)) (k v : string) : list (string * string) :=
  if String.eqb k "__proto__" then own else map_set k v own.

(** JavaScript truthiness. *)
Definition truthy (v : JsValue) : bool :=
  match v with
  | JsString s => negb (String.eqb s EmptyString)
  | JsUndefined => false
  | _ => true
  end.

(** [SameValueZero] on these values: a built-in function is one object. *)
Definition JsValue_eqb (a b : JsValue) : bool :=
  match a, b with
  | JsString x, JsString y => String.eqb x y
  | JsUndefined, JsUndefined => true
  | JsBuiltin x, JsBuiltin y => String.eqb x y
  | JsObjectPrototype, JsObjectPrototype => true
  | _, _ => false
  end.

(** A [Map] keyed by values, in insertion order. *)
Fixpoint vmap_get {V} (k : JsValue) (m : list (JsValue * V)) : option V :=
  match m with
  | [] => None
  | (k', v) :: r => if JsValue_eqb k k' then Some v else vmap_get k r
  end.

Fixpoint vmap_set {V} (k : JsValue) (v : V) (m : list (JsValue * V)) : list (JsValue * V) :=
  match m with
  | [] => [(k, v)]
  | (k', v') :: r => if JsValue_eqb k k' then (k', v) :: r else (k', v') :: vmap_set k v r
  end.

Record CountryCount := { cc_country : JsValue; cc_count : nat }.

(** The loop body of [computeOpponentCountryStats] on [tally]. *)
Definition country_step (u : string) (own : list (string * string)) (tally : list (JsValue * nat))
  (game : ChessGame) : list (JsValue * nat) :=
  let country := get_prop own (opponent_of game u) in
  if truthy country
  then vmap_set country (S match vmap_get country tally with Some n => n | None => 0 end) tally
  else tally.

(** [computeOpponentCountryStats(games, username, countryMap)] *)
Definition computeOpponentCountryStats (games : list ChessGame) (u : string)
  (own : list (string * string)) : list CountryCount :=
  sort_desc (fun c => Z.of_nat (cc_count c))
    (map (fun kv => {| cc_country := fst kv; cc_count := snd kv |})
       (fold_left (country_step u own) games [])).

(** The object [result] of [useLoadOpponentCountries] after all batches,
    [fetched] giving the answer of [fetchPlayerCountry] for each opponent
    ([{ ...result }] copies the own properties). *)
Definition load_countries (opponents : list string) (fetched : string -> option string)
  : list (string * string) :=
  fold_left (fun result opp =>
               match fetched opp with
               | Some code => if String.eqb code EmptyString then result else set_prop result opp code
               | None => result
               end) opponents [].

(** The games whose opponent's country is [c]. *)
Definition games_from (games : list ChessGame) (u : string) (own : list (string * string)) (c : JsValue) : nat :=
  List.length (filter (fun g => JsValue_eqb (get_prop own (opponent_of g u)) c) games).

(* ------------------------------------------------------------------ *)
(** ** Concrete inputs *)

Module Inputs.

Definition q : string := String Scan.dq EmptyString.
Definition nls : string := String Scan.nl EmptyString.

(** A header line [[T "v"]] followed by a newline. *)
Definition header (t v : string) : string :=
  ("[" ++ t ++ " " ++ q ++ v ++ q ++ "]" ++ nls)%string.

Definition player (n r : string) : GamePlayer :=
  {| username := n; rating := 1500; result := r |}.

Definition mk_game (p : string) (t : Z) (w b : GamePlayer) : ChessGame :=
  {| pgn := p; end_time := t; time_class := "blitz"; white := w; black := b |}.

(** The header block of the opening scenario. *)
Definition queens_pawn_pgn : string :=
  (header "ECO" "D02"
   ++ header "ECOUrl" "https://www.chess.com/openings/Queens-Pawn-Game-2.Nf3-Nf6-3.Bf4"
   ++ "1. d4 Nf6 *")%string.

(** Only Black castles, queenside; alice plays White. *)
Definition opponent_castles_pgn : string :=
  (header "White" "alice" ++ header "Black" "bob"
   ++ "1. d4 d5 2. Nc3 Nc6 3. Bf4 Bf5 4. Qd2 Qd7 5. e3 O-O-O 6. Bd3 Bxd3 *")%string.

Definition opponent_castles_game : ChessGame :=
  mk_game opponent_castles_pgn 1700000000 (player "alice" "win") (player "bob" "resigned").

(** alice plays neither side. *)
Definition foreign_game : ChessGame :=
  mk_game "1. e4 e5 *" 1700000000 (player "carol" "win") (player "bob" "resigned").

Definition win_game : ChessGame :=
  mk_game "1. e4 e5 *" 1700000000 (player "alice" "win") (player "bob" "resigned").

Definition loss_game : ChessGame :=
  mk_game "1. e4 e5 *" 1700000000 (player "alice" "resigned") (player "bob" "win").

(** A Ruy Lopez won by White. *)
Definition ruy_lopez_game : ChessGame :=
  mk_game "1. e4 e5 2. Nf3 Nc6 3. Bb5 a6 4. O-O Nf6 1-0" 1700000000 (player "alice" "win") (player "bob" "resigned").

(** A game against an opponent whose user name is [__proto__]. *)
Definition proto_game : ChessGame :=
  mk_game "1. e4 e5 *" 1700000000 (player "alice" "win") (player "__proto__" "resigned").

(** 29 wins in 200 games. *)
Definition batch_29_of_200 : list ChessGame := repeat win_game 29 ++ repeat loss_game 171.

(** An engine that cannot replay any movetext. *)
Definition failing_engine : Engine :=
  {| Board := unit; new_board := tt; load_history := fun _ => None;
     turn_white := fun _ => true; legal_moves := fun _ => [];
     play := fun _ _ => None; isCheckmate := fun _ => false |}.

End Inputs.

(* ================================================================== *)
(** * Properties *)

(* ------------------------------------------------------------------ *)
(** ** Result classification *)

Lemma existsb_eqb_In (r : string) (l : list string) :
  existsb (String.eqb r) l = true <-> In r l.
Proof.
  rewrite existsb_exists. split.
  - intros [x [Hx Heq]]. apply String.eqb_eq in Heq. subst. exact Hx.
  - intros H. exists r. split; [exact H | apply String.eqb_refl].
Qed.

(** C1: [getResult] reads the outcome code of the subject's side ([white]
    when [playedAsWhite], else [black]); it is [Win] exactly for the code
    ["win"], [Draw] for the six draw codes, and [Loss] for every other
    code. *)
Theorem getResult_total_mapping (game : ChessGame) (u : string) :
  let r := if playedAsWhite game u then result (white game) else result (black game) in
  draws = ["agreed"; "repetition"; "stalemate"; "insufficient"; "50move"; "timevsinsufficient"]%string /\
  (r = "win"%string -> getResult game u = Win) /\
  (In r draws -> getResult game u = Draw) /\
  (r <> "win"%string -> ~ In r draws -> getResult game u = Loss).
Proof.
  cbv zeta. unfold getResult. cbv zeta.
  set (r := if playedAsWhite game u then result (white game) else result (black game)).
  split; [reflexivity|].
  split; [|split].
  - intros ->. reflexivity.
  - intros Hin.
    destruct (String.eqb r "win") eqn:Hw.
    + apply String.eqb_eq in Hw. rewrite Hw in Hin. simpl in Hin. intuition discriminate.
    + apply existsb_eqb_In in Hin. rewrite Hin. reflexivity.
  - intros Hw Hin.
    destruct (String.eqb r "win") eqn:Hw'.
    + apply String.eqb_eq in Hw'. contradiction.
    + destruct (existsb (String.eqb r) draws) eqn:Hd.
      * apply existsb_eqb_In in Hd. contradiction.
      * reflexivity.
Qed.

Lemma getResult_total_mapping_witness :
  result (white Inputs.foreign_game) = "win"%string /\ getResult Inputs.foreign_game "carol" = Win.
Proof.
  split; [reflexivity|].
  apply (getResult_total_mapping Inputs.foreign_game "carol"). reflexivity.
Defined.

(** The counters of [computeResultCounts] grow by one per game. *)
Lemma tally_fold_total (u : string) (games : list ChessGame) (w l d : nat) :
  let '(w', l', d') := fold_left (tally u) games (w, l, d) in
  (w' + l' + d' = w + l + d + List.length games)%nat.
Proof.
  revert w l d. induction games as [|g gs IH]; intros w l d; cbn [fold_left List.length].
  - lia.
  - destruct (getResult g u) eqn:E.
    + replace (tally u (w, l, d) g) with (S w, l, d) by (unfold tally; rewrite E; reflexivity).
      specialize (IH (S w) l d). destruct (fold_left (tally u) gs (S w, l, d)) as [[w' l'] d']. lia.
    + replace (tally u (w, l, d) g) with (w, S l, d) by (unfold tally; rewrite E; reflexivity).
      specialize (IH w (S l) d). destruct (fold_left (tally u) gs (w, S l, d)) as [[w' l'] d']. lia.
    + replace (tally u (w, l, d) g) with (w, l, S d) by (unfold tally; rewrite E; reflexivity).
      specialize (IH w l (S d)). destruct (fold_left (tally u) gs (w, l, S d)) as [[w' l'] d']. lia.
Qed.

Lemma computeResultCounts_total (games : list ChessGame) (u : string) :
  rc_total (computeResultCounts games u) = List.length games.
Proof.
  unfold computeResultCounts.
  pose proof (tally_fold_total u games 0 0 0) as H.
  destruct (fold_left (tally u) games (0, 0, 0)%nat) as [[w l] d]. simpl. lia.
Qed.

(** C9: when the subject matches neither side (case-insensitively),
    [playedAsWhite] is false and [getResult] classifies the black side's
    code; [computeResultCounts(batch, u).total] is the batch length for
    every batch. *)
Theorem foreign_records_count_as_black (games : list ChessGame) (u : string) (g : ChessGame) :
  toLowerCase (username (white g)) <> toLowerCase u ->
  toLowerCase (username (black g)) <> toLowerCase u ->
  playedAsWhite g u = false /\
  getResult g u = (if String.eqb (result (black g)) "win" then Win
                   else if existsb (String.eqb (result (black g))) draws then Draw
                   else Loss) /\
  rc_total (computeResultCounts games u) = List.length games.
Proof.
  intros Hw _.
  assert (Hp : playedAsWhite g u = false).
  { unfold playedAsWhite. apply String.eqb_neq. exact Hw. }
  split; [exact Hp|]. split.
  - unfold getResult. rewrite Hp. reflexivity.
  - apply computeResultCounts_total.
Qed.

Lemma foreign_records_count_as_black_witness :
  (toLowerCase "carol" <> toLowerCase "alice" /\ toLowerCase "bob" <> toLowerCase "alice") /\
  playedAsWhite Inputs.foreign_game "alice" = false /\
  rc_total (computeResultCounts [Inputs.foreign_game] "alice") = 1%nat.
Proof.
  split; [split; discriminate|].
  destruct (foreign_records_count_as_black [Inputs.foreign_game] "alice" Inputs.foreign_game)
    as [H1 [_ H3]]; try discriminate.
  split; [exact H1 | exact H3].
Defined.

(* ------------------------------------------------------------------ *)
(** ** Castling detection *)

Lemma prefixb_app (p s : list ascii) :
  Scan.prefixb p s = true -> s = p ++ skipn (List.length p) s.
Proof.
  revert s. induction p as [|a p IH]; intros s H; simpl.
  - reflexivity.
  - destruct s as [|b s]; [discriminate|].
    simpl in H. apply andb_prop in H as [Hab Hp].
    apply Ascii.eqb_eq in Hab. subst b. f_equal. apply IH. exact Hp.
Qed.

(** Wherever the queenside pattern matches, the kingside pattern matches. *)
Lemma wb_at_queenside_kingside (prev : option ascii) (s : list ascii) :
  Scan.wb_at (list_ascii_of_string "O-O-O") prev s = true ->
  Scan.wb_at (list_ascii_of_string "O-O") prev s = true.
Proof.
  unfold Scan.wb_at. intros H.
  apply andb_prop in H as [H Hafter]. apply andb_prop in H as [Hbefore Hpre].
  pose proof (prefixb_app _ _ Hpre) as Hs. rewrite Hs. simpl.
  simpl in Hbefore. rewrite Hbefore. reflexivity.
Qed.

Lemma wb_search_queenside_kingside (prev : option ascii) (s : list ascii) :
  Scan.wb_search (list_ascii_of_string "O-O-O") prev s = true ->
  Scan.wb_search (list_ascii_of_string "O-O") prev s = true.
Proof.
  revert prev. induction s as [|c s IH]; intros prev H; cbn [Scan.wb_search] in H |- *;
    apply orb_true_iff in H as [H|H].
  - rewrite (wb_at_queenside_kingside _ _ H). reflexivity.
  - discriminate.
  - rewrite (wb_at_queenside_kingside _ _ H). reflexivity.
  - rewrite (IH _ H). apply orb_true_r.
Qed.

(** C5: [detectCastling] strips the headers and trims, tests the
    queenside pattern first and answers [Queenside] when it matches, even
    though the kingside pattern then always matches too; otherwise
    [Kingside] when the kingside pattern matches, otherwise [NoCastle].
    The moves text ["1. e4 e5 2. O-O-O"] gives [Queenside]. *)
Theorem detectCastling_queenside_first (p : string) :
  let ms := Scan.trim (Scan.strip_headers (list_ascii_of_string p)) in
  (Scan.wb_test "O-O-O" ms = true ->
     Scan.wb_test "O-O" ms = true /\ detectCastling p = Queenside) /\
  (Scan.wb_test "O-O-O" ms = false -> Scan.wb_test "O-O" ms = true ->
     detectCastling p = Kingside) /\
  (Scan.wb_test "O-O-O" ms = false -> Scan.wb_test "O-O" ms = false ->
     detectCastling p = NoCastle) /\
  detectCastling "1. e4 e5 2. O-O-O" = Queenside.
Proof.
  cbv zeta. unfold detectCastling.
  set (ms := Scan.trim (Scan.strip_headers (list_ascii_of_string p))).
  split; [|split; [|split]].
  - intros H. split.
    + apply wb_search_queenside_kingside. exact H.
    + rewrite H. reflexivity.
  - intros H1 H2. rewrite H1, H2. reflexivity.
  - intros H1 H2. rewrite H1, H2. reflexivity.
  - vm_compute. reflexivity.
Qed.

Lemma detectCastling_queenside_first_witness :
  Scan.wb_test "O-O" (Scan.trim (Scan.strip_headers (list_ascii_of_string "1. e4 e5 2. O-O-O"))) = true
  /\ detectCastling "1. e4 e5 2. O-O-O" = Queenside.
Proof.
  apply (proj1 (detectCastling_queenside_first "1. e4 e5 2. O-O-O")).
  vm_compute. reflexivity.
Defined.

(** The first component of the castling loop does not read the identity. *)
Lemma castling_fold_counts (u : string) (games : list ChessGame) (cs ws : PerCastling) :
  fst (fold_left (castling_step u) games (cs, ws))
  = fold_left (fun o g => bump (detectCastling (pgn g)) o) games cs.
Proof.
  revert cs ws. induction games as [|g gs IH]; intros cs ws; simpl.
  - reflexivity.
  - apply IH.
Qed.

(** C10: the castling counts of [computeCastlingStats] do not depend on the
    subject at all (each game is classified from its whole movetext, both
    players' moves); a game in which only the opponent castled queenside
    counts as a queenside game of the subject. *)
Theorem castling_counts_ignore_mover (games : list ChessGame) (u v : string) :
  counts (computeCastlingStats games u) = counts (computeCastlingStats games v) /\
  detectCastling (pgn Inputs.opponent_castles_game) = Queenside /\
  c_queenside (counts (computeCastlingStats [Inputs.opponent_castles_game] "alice")) = 1%nat.
Proof.
  split; [|split].
  - unfold computeCastlingStats.
    pose proof (castling_fold_counts u games pc_zero pc_zero) as Hu.
    pose proof (castling_fold_counts v games pc_zero pc_zero) as Hv.
    destruct (fold_left (castling_step u) games (pc_zero, pc_zero)) as [cu wu].
    destruct (fold_left (castling_step v) games (pc_zero, pc_zero)) as [cv wv].
    simpl in Hu, Hv |- *. congruence.
  - vm_compute. reflexivity.
  - vm_compute. reflexivity.
Qed.

(* ------------------------------------------------------------------ *)
(** ** Opening extraction *)

Lemma name_parts_stop (ps : list string) (t : string) (rest : list string) :
  Forall (fun p => Scan.is_move_token p = false) ps ->
  Scan.is_move_token t = true ->
  name_parts (ps ++ t :: rest) = ps.
Proof.
  intros Hps Ht. induction Hps as [|p ps Hp Hps IH]; simpl.
  - rewrite Ht. reflexivity.
  - rewrite Hp, IH. reflexivity.
Qed.

Lemma name_parts_all (ps : list string) :
  Forall (fun p => Scan.is_move_token p = false) ps -> name_parts ps = ps.
Proof.
  intros Hps. induction Hps as [|p ps Hp Hps IH]; simpl.
  - reflexivity.
  - rewrite Hp, IH. reflexivity.
Qed.

(** C6: [extractOpening] takes the code from the [ECO] tag, else
    ["Unknown"]; the name from the [Opening] tag, else from the [ECOUrl]
    tag, else ["Unknown Opening"].  The URL name is the piece after
    ["/openings/"], split on hyphens, with the segments before the first
    digits-then-dot segment joined by spaces (["Unknown Opening"] when that
    is empty).  The [D02] header block of the scenario gives
    ["Queens Pawn Game"]. *)
Theorem extractOpening_resolution (p : string) :
  let s := list_ascii_of_string p in
  eco (extractOpening p) =
    match Scan.find_tag "ECO" s with
    | Some v => string_of_list_ascii v
    | None => "Unknown"%string
    end /\
  name (extractOpening p) =
    match Scan.find_tag "Opening" s with
    | Some v => string_of_list_ascii v
    | None =>
        match Scan.find_tag "ECOUrl" s with
        | Some v => parseOpeningNameFromUrl (string_of_list_ascii v)
        | None => unknown_opening
        end
    end /\
  (forall url path ps t rest,
     nth_error (Scan.split "/openings/" url) 1 = Some path ->
     Scan.split "-" path = ps ++ t :: rest ->
     Forall (fun x => Scan.is_move_token x = false) ps ->
     Scan.is_move_token t = true ->
     parseOpeningNameFromUrl url =
       match Scan.join " " ps with EmptyString => unknown_opening | n => n end) /\
  (forall url path,
     nth_error (Scan.split "/openings/" url) 1 = Some path ->
     path <> EmptyString ->
     Forall (fun x => Scan.is_move_token x = false) (Scan.split "-" path) ->
     parseOpeningNameFromUrl url =
       match Scan.join " " (Scan.split "-" path) with EmptyString => unknown_opening | n => n end) /\
  Scan.find_tag "Opening" (list_ascii_of_string Inputs.queens_pawn_pgn) = None /\
  extractOpening Inputs.queens_pawn_pgn = {| eco := "D02"; name := "Queens Pawn Game" |}.
Proof.
  cbv zeta. split; [reflexivity|]. split; [reflexivity|]. split; [|split; [|split]].
  - intros url path ps t rest Hpath Hsplit Hps Ht.
    unfold parseOpeningNameFromUrl. rewrite Hpath.
    destruct path as [|c path'].
    + vm_compute in Hsplit. destruct ps as [|x ps]; simpl in Hsplit.
      * injection Hsplit as <- _. discriminate.
      * injection Hsplit as _ Hsplit. destruct ps; discriminate.
    + rewrite Hsplit, (name_parts_stop ps t rest Hps Ht). reflexivity.
  - intros url path Hpath Hne Hall.
    unfold parseOpeningNameFromUrl. rewrite Hpath.
    destruct path as [|c path']; [contradiction|].
    rewrite (name_parts_all _ Hall). reflexivity.
  - vm_compute. reflexivity.
  - vm_compute. reflexivity.
Qed.

Lemma extractOpening_resolution_witness :
  parseOpeningNameFromUrl "https://www.chess.com/openings/Queens-Pawn-Game-2.Nf3-Nf6-3.Bf4"%string
  = "Queens Pawn Game"%string.
Proof.
  apply (proj1 (proj2 (proj2 (extractOpening_resolution EmptyString)))
           "https://www.chess.com/openings/Queens-Pawn-Game-2.Nf3-Nf6-3.Bf4"%string
           "Queens-Pawn-Game-2.Nf3-Nf6-3.Bf4"%string
           ["Queens"; "Pawn"; "Game"]%string "2.Nf3"%string ["Nf6"; "3.Bf4"]%string).
  - vm_compute. reflexivity.
  - vm_compute. reflexivity.
  - repeat constructor.
  - vm_compute. reflexivity.
Defined.

(* ------------------------------------------------------------------ *)
(** ** The stable descending sort *)

Section SortFacts.

Context {A : Type} (key : A -> Z).

Lemma insert_desc_perm (x : A) (l : list A) :
  Permutation (insert_desc key x l) (x :: l).
Proof.
  induction l as [|y r IH]; simpl.
  - reflexivity.
  - destruct (key x <=? key y).
    + rewrite IH. apply perm_swap.
    + reflexivity.
Qed.

Lemma sort_desc_fold_perm (l acc : list A) :
  Permutation (fold_left (fun acc x => insert_desc key x acc) l acc) (l ++ acc).
Proof.
  revert acc. induction l as [|x l IH]; intros acc; simpl.
  - reflexivity.
  - rewrite IH, insert_desc_perm. symmetry. apply Permutation_middle.
Qed.

Lemma sort_desc_perm (l : list A) : Permutation (sort_desc key l) l.
Proof.
  unfold sort_desc. rewrite sort_desc_fold_perm. rewrite app_nil_r. reflexivity.
Qed.

Lemma insert_desc_sorted (x : A) (l : list A) :
  StronglySorted (desc key) l -> StronglySorted (desc key) (insert_desc key x l).
Proof.
  induction l as [|y r IH]; intros Hs; simpl.
  - repeat constructor.
  - apply StronglySorted_inv in Hs as [Hr Hy].
    destruct (key x <=? key y) eqn:Hxy.
    + constructor; [apply IH, Hr|].
      apply Forall_forall. intros z Hz.
      apply (Permutation_in _ (insert_desc_perm x r)) in Hz.
      destruct Hz as [<-|Hz].
      * unfold desc. apply Z.leb_le. exact Hxy.
      * exact (proj1 (Forall_forall _ _) Hy z Hz).
    + apply Z.leb_gt in Hxy.
      constructor; [constructor; assumption|].
      constructor; [unfold desc; lia|].
      apply Forall_forall. intros z Hz.
      pose proof (proj1 (Forall_forall _ _) Hy z Hz) as Hz'. unfold desc in *. lia.
Qed.

Lemma sort_desc_fold_sorted (l acc : list A) :
  StronglySorted (desc key) acc ->
  StronglySorted (desc key) (fold_left (fun acc x => insert_desc key x acc) l acc).
Proof.
  revert acc. induction l as [|x l IH]; intros acc Hacc; simpl.
  - exact Hacc.
  - apply IH, insert_desc_sorted, Hacc.
Qed.

Lemma sort_desc_sorted (l : list A) : StronglySorted (desc key) (sort_desc key l).
Proof.
  apply sort_desc_fold_sorted. constructor.
Qed.

Lemma StronglySorted_app_l (l1 l2 : list A) :
  StronglySorted (desc key) (l1 ++ l2) -> StronglySorted (desc key) l1.
Proof.
  induction l1 as [|x l1 IH]; intros Hs; simpl in *.
  - constructor.
  - apply StronglySorted_inv in Hs as [Hs Hx]. constructor.
    + apply IH, Hs.
    + apply Forall_forall. intros z Hz.
      exact (proj1 (Forall_forall _ _) Hx z (in_or_app _ _ _ (or_introl Hz))).
Qed.

Lemma StronglySorted_app_cross (l1 l2 : list A) :
  StronglySorted (desc key) (l1 ++ l2) ->
  forall x y, In x l1 -> In y l2 -> key y <= key x.
Proof.
  induction l1 as [|z l1 IH]; intros Hs x y Hx Hy; simpl in *.
  - contradiction.
  - apply StronglySorted_inv in Hs as [Hs Hz].
    destruct Hx as [<-|Hx].
    + exact (proj1 (Forall_forall _ _) Hz y (in_or_app _ _ _ (or_intror Hy))).
    + exact (IH Hs x y Hx Hy).
Qed.

Lemma insert_desc_end (x : A) (l : list A) :
  (forall y, In y l -> key x <= key y) -> insert_desc key x l = l ++ [x].
Proof.
  induction l as [|y r IH]; intros H; simpl.
  - reflexivity.
  - assert (Hy : key x <= key y) by (apply H; left; reflexivity).
    apply Z.leb_le in Hy. rewrite Hy. f_equal. apply IH.
    intros z Hz. apply H. right. exact Hz.
Qed.

(** Sorting a sorted list changes nothing. *)
Lemma sort_desc_sorted_id (l : list A) :
  StronglySorted (desc key) l -> sort_desc key l = l.
Proof.
  intros Hs. unfold sort_desc.
  enough (Hg : forall acc, StronglySorted (desc key) (acc ++ l) ->
                 fold_left (fun acc x => insert_desc key x acc) l acc = acc ++ l)
    by (apply (Hg []); exact Hs).
  clear Hs. induction l as [|x l IH]; intros acc Hs; simpl.
  - rewrite app_nil_r. reflexivity.
  - rewrite insert_desc_end.
    + rewrite IH; rewrite <- app_assoc; [reflexivity | exact Hs].
    + intros y Hy. apply (StronglySorted_app_cross acc (x :: l) Hs y x Hy).
      left. reflexivity.
Qed.

Lemma filter_none (f : A -> bool) (l : list A) :
  (forall z, In z l -> f z = false) -> filter f l = [].
Proof.
  induction l as [|y r IH]; intros H; simpl.
  - reflexivity.
  - rewrite (H y (or_introl eq_refl)). apply IH. intros z Hz. apply H. right. exact Hz.
Qed.

(** Stability: among the elements of one key, [insert_desc] puts the new
    one last. *)
Lemma insert_desc_filter (c : Z) (x : A) (l : list A) :
  StronglySorted (desc key) l ->
  filter (fun a => key a =? c) (insert_desc key x l)
  = filter (fun a => key a =? c) l ++ (if key x =? c then [x] else []).
Proof.
  induction l as [|y r IH]; intros Hs; simpl.
  - destruct (key x =? c); reflexivity.
  - apply StronglySorted_inv in Hs as [Hr Hy].
    destruct (key x <=? key y) eqn:Hxy.
    + simpl. rewrite IH by exact Hr. destruct (key y =? c); reflexivity.
    + apply Z.leb_gt in Hxy. simpl.
      destruct (key x =? c) eqn:Hxc.
      * apply Z.eqb_eq in Hxc.
        assert (Hnone : filter (fun a => key a =? c) (y :: r) = []).
        { apply filter_none. intros z [<-|Hz].
          - apply Z.eqb_neq. lia.
          - pose proof (proj1 (Forall_forall _ _) Hy z Hz) as Hz'. unfold desc in Hz'.
            apply Z.eqb_neq. lia. }
        simpl in Hnone. rewrite Hnone. reflexivity.
      * simpl. rewrite app_nil_r. reflexivity.
Qed.

Lemma sort_desc_stable (c : Z) (l : list A) :
  filter (fun a => key a =? c) (sort_desc key l) = filter (fun a => key a =? c) l.
Proof.
  unfold sort_desc.
  enough (Hg : forall acc, StronglySorted (desc key) acc ->
                 filter (fun a => key a =? c) (fold_left (fun acc x => insert_desc key x acc) l acc)
                 = filter (fun a => key a =? c) acc ++ filter (fun a => key a =? c) l)
    by (rewrite (Hg [] (SSorted_nil _)); reflexivity).
  induction l as [|x l IH]; intros acc Hacc; simpl.
  - rewrite app_nil_r. reflexivity.
  - rewrite IH by (apply insert_desc_sorted, Hacc).
    rewrite insert_desc_filter by exact Hacc.
    rewrite <- app_assoc. destruct (key x =? c); reflexivity.
Qed.

End SortFacts.

(* ------------------------------------------------------------------ *)
(** ** Tactics detector *)

Lemma tactics_sample_length (games : list ChessGame) :
  List.length (tactics_sample games) = Nat.min (List.length games) 100.
Proof.
  unfold tactics_sample. rewrite length_firstn, (Permutation_length (sort_desc_perm end_time games)).
  apply Nat.min_comm.
Qed.

Lemma tactics_sample_sorted (games : list ChessGame) :
  StronglySorted (desc end_time) (tactics_sample games ++ skipn 100 (sort_desc end_time games)).
Proof.
  unfold tactics_sample. rewrite firstn_skipn. apply sort_desc_sorted.
Qed.

Lemma tactics_sample_idem (games : list ChessGame) :
  tactics_sample (tactics_sample games) = tactics_sample games.
Proof.
  unfold tactics_sample at 1.
  rewrite sort_desc_sorted_id.
  - apply firstn_all2. rewrite tactics_sample_length. lia.
  - apply (StronglySorted_app_l _ _ _ (tactics_sample_sorted games)).
Qed.

(** C2: [computeTacticsStats] analyses the sample of the (at most) 100
    records with the latest end times: [gamesAnalyzed] is
    [min (length games) 100] whatever the records contain, the result is
    the same as on the sample alone (the records left out contribute
    nothing), every sampled record ends no earlier than every record left
    out, sample and left-out records together are the batch, and on the
    empty batch all three numbers are 0.  This holds for every rules
    engine. *)
Theorem computeTacticsStats_sample (E : Engine) (games : list ChessGame) (u : string) :
  gamesAnalyzed (computeTacticsStats E games u) = Nat.min (List.length games) 100 /\
  computeTacticsStats E games u = computeTacticsStats E (tactics_sample games) u /\
  Permutation (tactics_sample games ++ skipn 100 (sort_desc end_time games)) games /\
  (forall x y, In x (tactics_sample games) -> In y (skipn 100 (sort_desc end_time games)) ->
     end_time y <= end_time x) /\
  computeTacticsStats E [] u = {| gamesAnalyzed := 0; missedMates := 0; matesPlayed := 0 |}.
Proof.
  split; [|split; [|split; [|split]]].
  - apply tactics_sample_length.
  - unfold computeTacticsStats at 2. rewrite tactics_sample_idem. reflexivity.
  - unfold tactics_sample. rewrite firstn_skipn. apply sort_desc_perm.
  - apply StronglySorted_app_cross, tactics_sample_sorted.
  - reflexivity.
Qed.

(** A record whose movetext cannot be loaded leaves the counters as they are. *)
Lemma run_game_load_failure (E : Engine) (u : string) (c : Counters) (g : ChessGame) :
  load_history E (pgn g) = None -> run_game E u c g = c.
Proof.
  intros H. unfold run_game, analyse_game, bind, lift. rewrite H. reflexivity.
Qed.



(* ------------------------------------------------------------------ *)
(** ** Opening statistics *)

Section MapFacts.

Context {V : Type}.

Lemma map_get_In (k : string) (v : V) (m : list (string * V)) :
  map_get k m = Some v -> In (k, v) m.
Proof.
  induction m as [|[k' v'] r IH]; simpl; [discriminate|].
  destruct (String.eqb k k') eqn:Hk.
  - apply String.eqb_eq in Hk. subst. intros [= <-]. left. reflexivity.
  - intros H. right. apply IH, H.
Qed.

Lemma map_get_None (k : string) (m : list (string * V)) :
  map_get k m = None -> ~ In k (map fst m).
Proof.
  induction m as [|[k' v'] r IH]; simpl; [auto|].
  destruct (String.eqb k k') eqn:Hk; [discriminate|].
  apply String.eqb_neq in Hk. intros H [Heq|Hin]; [congruence|]. exact (IH H Hin).
Qed.

Lemma map_get_not_None (k : string) (m : list (string * V)) :
  In k (map fst m) -> exists v, map_get k m = Some v.
Proof.
  destruct (map_get k m) eqn:H; [eauto|].
  intros Hin. exfalso. exact (map_get_None k m H Hin).
Qed.

Lemma map_set_keys_in (k : string) (v : V) (m : list (string * V)) :
  In k (map fst m) -> map fst (map_set k v m) = map fst m.
Proof.
  induction m as [|[k' v'] r IH]; simpl; [contradiction|].
  destruct (String.eqb k k') eqn:Hk; simpl.
  - reflexivity.
  - apply String.eqb_neq in Hk. intros [Heq|Hin]; [congruence|]. f_equal. apply IH, Hin.
Qed.

Lemma map_set_keys_new (k : string) (v : V) (m : list (string * V)) :
  ~ In k (map fst m) -> map fst (map_set k v m) = map fst m ++ [k].
Proof.
  induction m as [|[k' v'] r IH]; simpl; [reflexivity|].
  intros Hn. destruct (String.eqb k k') eqn:Hk.
  - apply String.eqb_eq in Hk. exfalso. apply Hn. left. congruence.
  - simpl. f_equal. apply IH. intros Hin. apply Hn. right. exact Hin.
Qed.

Lemma map_set_In (k : string) (v : V) (m : list (string * V)) (k' : string) (v' : V) :
  NoDup (map fst m) -> In (k', v') (map_set k v m) ->
  (k' = k /\ v' = v) \/ (k' <> k /\ In (k', v') m).
Proof.
  induction m as [|[k0 v0] r IH]; simpl; intros Hnd Hin.
  - destruct Hin as [[= <- <-]|[]]. left. split; reflexivity.
  - inversion Hnd as [|? ? Hk0 Hnd']. subst.
    destruct (String.eqb k k0) eqn:Hk.
    + apply String.eqb_eq in Hk. subst k0.
      destruct Hin as [[= <- <-]|Hin]; [left; split; reflexivity|].
      right. split; [|right; exact Hin].
      intros ->. apply Hk0. apply (in_map fst _ (k, v') Hin).
    + apply String.eqb_neq in Hk.
      destruct Hin as [[= <- <-]|Hin].
      * right. split; [congruence | left; reflexivity].
      * destruct (IH Hnd' Hin) as [H|[H1 H2]]; [left; exact H | right; split; [exact H1 | right; exact H2]].
Qed.

End MapFacts.

Lemma eco_count_snoc (gs : list ChessGame) (g : ChessGame) (k : string) :
  eco_count (gs ++ [g]) k = (eco_count gs k + if String.eqb (eco_of g) k then 1 else 0)%nat.
Proof.
  unfold eco_count. rewrite filter_app, length_app. simpl.
  destruct (String.eqb (eco_of g) k); reflexivity.
Qed.

Lemma group_game_total (u : string) (g : ChessGame) (e : OpeningAcc) :
  let updated := match getResult g u with
                 | Win => {| oa_eco := oa_eco e; oa_name := oa_name e; oa_wins := S (oa_wins e);
                             oa_losses := oa_losses e; oa_draws := oa_draws e |}
                 | Loss => {| oa_eco := oa_eco e; oa_name := oa_name e; oa_wins := oa_wins e;
                              oa_losses := S (oa_losses e); oa_draws := oa_draws e |}
                 | Draw => {| oa_eco := oa_eco e; oa_name := oa_name e; oa_wins := oa_wins e;
                              oa_losses := oa_losses e; oa_draws := S (oa_draws e) |}
                 end in
  oa_eco updated = oa_eco e /\ acc_total updated = S (acc_total e).
Proof.
  cbv zeta. unfold acc_total. destruct (getResult g u); simpl; split; lia || reflexivity.
Qed.

Lemma group_game_inv (u : string) (m : list (string * OpeningAcc)) (gs : list ChessGame)
  (g : ChessGame) :
  group_inv m gs -> group_inv (group_game u m g) (gs ++ [g]).
Proof.
  intros [Hent [Hnd Hout]].
  unfold group_game. cbv zeta.
  fold (eco_of g).
  pose proof (group_game_total u g) as Htot. cbv zeta in Htot.
  destruct (map_get (eco_of g) m) as [e|] eqn:Hget.
  - (* the opening code is already a key *)
    pose proof (map_get_In _ _ _ Hget) as Hin.
    destruct (Hent _ _ Hin) as [He Hc].
    assert (Hkey : In (eco_of g) (map fst m)) by (apply (in_map fst _ _ Hin)).
    split; [|split].
    + intros k v Hkv.
      destruct (map_set_In _ _ _ _ _ Hnd Hkv) as [[-> ->]|[Hne Hkv']].
      * destruct (Htot e) as [H1 H2]. split; [congruence|].
        rewrite H2, eco_count_snoc, String.eqb_refl, Hc. lia.
      * destruct (Hent _ _ Hkv') as [H1 H2]. split; [exact H1|].
        rewrite eco_count_snoc, H2.
        destruct (String.eqb (eco_of g) k) eqn:Hgk; [apply String.eqb_eq in Hgk; congruence | lia].
    + rewrite map_set_keys_in by exact Hkey. exact Hnd.
    + intros k Hk. rewrite map_set_keys_in in Hk by exact Hkey.
      rewrite eco_count_snoc, (Hout k Hk).
      destruct (String.eqb (eco_of g) k) eqn:Hgk; [|reflexivity].
      apply String.eqb_eq in Hgk. subst k. contradiction.
  - (* a new key, appended *)
    pose proof (map_get_None _ _ Hget) as Hkey.
    split; [|split].
    + intros k v Hkv.
      destruct (map_set_In _ _ _ _ _ Hnd Hkv) as [[-> ->]|[Hne Hkv']].
      * destruct (Htot {| oa_eco := eco_of g; oa_name := name (extractOpening (pgn g));
                          oa_wins := 0; oa_losses := 0; oa_draws := 0 |}) as [H1 H2].
        split; [exact H1|].
        rewrite H2, eco_count_snoc, String.eqb_refl, (Hout _ Hkey). reflexivity.
      * destruct (Hent _ _ Hkv') as [H1 H2]. split; [exact H1|].
        rewrite eco_count_snoc, H2.
        destruct (String.eqb (eco_of g) k) eqn:Hgk; [apply String.eqb_eq in Hgk; congruence | lia].
    + rewrite map_set_keys_new by exact Hkey.
      apply NoDup_app; [exact Hnd | repeat constructor; simpl; tauto |].
      intros a Ha [<-|[]]. contradiction.
    + intros k Hk. rewrite map_set_keys_new in Hk by exact Hkey.
      assert (Hk1 : ~ In k (map fst m)) by (intros H; apply Hk, in_or_app; left; exact H).
      rewrite eco_count_snoc, (Hout k Hk1).
      destruct (String.eqb (eco_of g) k) eqn:Hgk; [|reflexivity].
      apply String.eqb_eq in Hgk. subst k. exfalso. apply Hk, in_or_app. right. left. reflexivity.
Qed.

(** The loop of [computeOpeningStats] groups the kept games. *)
Lemma opening_fold_filter (u : string) (color : Color) (games : list ChessGame)
  (m : list (string * OpeningAcc)) :
  fold_left (opening_step u color) games m
  = fold_left (group_game u) (filter (side_kept u color) games) m.
Proof.
  revert m. induction games as [|g gs IH]; intros m; simpl; [reflexivity|].
  unfold opening_step at 2. destruct (side_kept u color g); simpl; apply IH.
Qed.

Lemma group_fold_inv (u : string) (gs : list ChessGame) :
  group_inv (fold_left (group_game u) gs []) gs.
Proof.
  enough (H : forall pre m, group_inv m pre ->
                group_inv (fold_left (group_game u) gs m) (pre ++ gs))
    by (apply (H [] []); split; [intros k v []|split; [constructor | reflexivity]]).
  induction gs as [|g gs IH]; intros pre m Hm; simpl.
  - rewrite app_nil_r. exact Hm.
  - replace (pre ++ g :: gs) with ((pre ++ [g]) ++ gs) by (rewrite <- app_assoc; reflexivity).
    apply IH, group_game_inv, Hm.
Qed.

Lemma group_fold_keys (u : string) (gs : list ChessGame) (m : list (string * OpeningAcc)) :
  map fst (fold_left (group_game u) gs m)
  = fold_left (fun acc k => if existsb (String.eqb k) acc then acc else acc ++ [k])
      (map eco_of gs) (map fst m).
Proof.
  revert m. induction gs as [|g gs IH]; intros m; simpl; [reflexivity|].
  rewrite IH. f_equal.
  unfold group_game. cbv zeta. fold (eco_of g).
  destruct (existsb (String.eqb (eco_of g)) (map fst m)) eqn:He.
  - apply existsb_eqb_In in He. apply map_set_keys_in, He.
  - apply map_set_keys_new. intros Hin. apply existsb_eqb_In in Hin. congruence.
Qed.

(** The groups of [computeOpeningStats], before sorting, in terms of the
    map built by its loop. *)
Lemma opening_groups_codes (u : string) (color : Color) (games : list ChessGame) :
  map os_eco (opening_groups games u color)
  = map fst (fold_left (opening_step u color) games []).
Proof.
  unfold opening_groups. rewrite map_map. apply map_ext_in.
  intros [k v] Hkv. simpl.
  rewrite opening_fold_filter in Hkv.
  destruct (group_fold_inv u (filter (side_kept u color) games)) as [Hent _].
  apply (Hent k v Hkv).
Qed.

(** C7 (amended): [computeOpeningStats] keeps the games whose
    [playedAsWhite] equals (side = white), so for the black side also the
    games in which the subject plays neither side; it makes one group per
    opening code, in order of first encounter, whose count is the number
    of kept games with that code; it returns the groups sorted by count,
    descending, groups of equal count in their encounter order, cut to the
    first [topN]. *)
Theorem computeOpeningStats_grouped_sorted (games : list ChessGame) (u : string)
  (color : Color) (topN : nat) :
  let kept := filter (side_kept u color) games in
  let groups := opening_groups games u color in
  (forall g, In g kept <->
     In g games /\ playedAsWhite g u = match color with White => true | Black => false end) /\
  map os_eco groups = first_occurrences (map eco_of kept) /\
  (forall o, In o groups -> os_count o = eco_count kept (os_eco o)) /\
  computeOpeningStats games u color topN = firstn topN (sort_desc count_key groups) /\
  StronglySorted (desc count_key) (computeOpeningStats games u color topN) /\
  (forall c, filter (fun o => count_key o =? c) (sort_desc count_key groups)
             = filter (fun o => count_key o =? c) groups) /\
  (List.length (computeOpeningStats games u color topN) <= topN)%nat.
Proof.
  cbv zeta.
  destruct (group_fold_inv u (filter (side_kept u color) games)) as [Hent [Hnd Hout]].
  split; [|split; [|split; [|split; [|split; [|split]]]]].
  - intros g. rewrite filter_In. unfold side_kept.
    destruct color, (playedAsWhite g u); simpl; intuition congruence.
  - rewrite opening_groups_codes, opening_fold_filter, group_fold_keys. reflexivity.
  - intros o Ho. unfold opening_groups in Ho. apply in_map_iff in Ho as [[k v] [<- Hkv]].
    rewrite opening_fold_filter in Hkv. destruct (Hent k v Hkv) as [H1 H2].
    simpl. rewrite H1. exact H2.
  - reflexivity.
  - unfold computeOpeningStats.
    apply (StronglySorted_app_l _ _ (skipn topN (sort_desc count_key (opening_groups games u color)))).
    rewrite firstn_skipn. apply sort_desc_sorted.
  - intros c. apply sort_desc_stable.
  - unfold computeOpeningStats. rewrite length_firstn. lia.
Qed.

Lemma computeOpeningStats_grouped_sorted_witness :
  map os_eco (computeOpeningStats [Inputs.opponent_castles_game] "alice" White default_topN)
  = ["Unknown"%string].
Proof.
  rewrite (proj1 (proj2 (proj2 (proj2 (computeOpeningStats_grouped_sorted
             [Inputs.opponent_castles_game] "alice" White default_topN))))).
  vm_compute. reflexivity.
Defined.

(** C7 as stated fails: alice plays black in no game of the batch, yet the
    black-side statistics have a group. *)
Lemma computeOpeningStats_foreign_black :
  (forall g, In g [Inputs.foreign_game] ->
     toLowerCase (username (black g)) <> toLowerCase "alice" /\
     toLowerCase (username (white g)) <> toLowerCase "alice") /\
  map os_count (computeOpeningStats [Inputs.foreign_game] "alice" Black default_topN) = [1%nat].
Proof.
  split.
  - intros g [<-|[]]. split; discriminate.
  - vm_compute. reflexivity.
Qed.

(* ------------------------------------------------------------------ *)
(** ** Offload manager *)

Module OffloadFacts.

Import Offload.

Section Invariant.

Variable work : list ChessGame -> string -> TacticsStats.

Local Abbreviation inv := (Offload.inv work).

Lemma inv_init : inv init.
Proof.
  unfold inv, init; simpl. repeat split; intros; try contradiction; try discriminate; lia.
Qed.

(** The cleanup leaves no job and no pending reply. *)
Lemma cleanup_empties (s : State) :
  inv s -> jobs (cleanup s) = [] /\ outbox (cleanup s) = [] /\ current (cleanup s) = None /\
           stats (cleanup s) = stats s /\ inputs (cleanup s) = inputs s.
Proof.
  intros [Hj [_ [Ho _]]]. unfold cleanup.
  destruct (current s) as [w|] eqn:Hc; simpl.
  - split; [|split; [|repeat split]].
    + apply filter_none. intros w' Hw'. pose proof (Hj w' Hw') as Hw.
      assert (w' = w) as -> by congruence.
      rewrite Nat.eqb_refl. reflexivity.
    + apply filter_none. intros [i r] Hir. destruct (Ho i r Hir) as [w' [Hw' [Hi _]]].
      assert (w' = w) as -> by congruence. simpl. rewrite Hi, Nat.eqb_refl. reflexivity.
  - split; [|split; [|repeat split; assumption]].
    + destruct (jobs s) as [|w js] eqn:Hjs; [reflexivity|].
      exfalso. pose proof (Hj w) as H. rewrite ?Hjs in H.
      specialize (H (or_introl eq_refl)). congruence.
    + destruct (outbox s) as [|[i r] os] eqn:Hos; [reflexivity|].
      exfalso. pose proof (Ho i r) as H. rewrite ?Hos in H.
      destruct (H (or_introl eq_refl)) as [w [Hw _]]. congruence.
Qed.

Lemma inv_effect (games : list ChessGame) (u : string) (s : State) :
  inv s -> inv (effect games u (cleanup s)).
Proof.
  intros Hs. destruct (cleanup_empties s Hs) as [Hj [Ho [Hc [Hst Hin]]]].
  unfold effect. destruct games as [|g gs]; unfold inv; simpl; rewrite Hj, Ho.
  - repeat split; simpl; intros; try contradiction; try discriminate; lia.
  - split; [|split; [|split; [|split]]]; simpl.
    + intros w [<-|[]]. reflexivity.
    + lia.
    + intros i r [].
    + intros w [= <-]. reflexivity.
    + intros r [=].
Qed.

Lemma inv_step (s s' : State) : inv s -> step work s s' -> inv s'.
Proof.
  intros Hs Hstep. destruct Hstep as [games u s | s w j1 j2 Hjobs | s i r o1 o2 Hout | s].
  - apply inv_effect, Hs.
  - destruct Hs as [Hj [Hl [Ho [Hc Hst]]]].
    assert (Hw : current s = Some w) by (apply Hj; rewrite Hjobs; apply in_or_app; right; left; reflexivity).
    unfold inv; simpl. split; [|split; [|split; [|split]]].
    + intros w' Hw'. apply Hj. rewrite Hjobs. apply in_app_or in Hw' as [H|H]; apply in_or_app; [left | right; right]; exact H.
    + rewrite Hjobs, !length_app in Hl. simpl in Hl. rewrite length_app. lia.
    + intros i r Hir. apply in_app_or in Hir as [Hir|[[= <- <-]|[]]].
      * apply Ho, Hir.
      * exists w. repeat split. exact Hw.
    + exact Hc.
    + exact Hst.
  - destruct Hs as [Hj [Hl [Ho [Hc Hst]]]].
    destruct (Ho i r) as [w [Hw [_ Hr]]]; [rewrite Hout; apply in_or_app; right; left; reflexivity|].
    unfold inv; simpl. split; [exact Hj|]. split; [exact Hl|]. split; [|split; [exact Hc|]].
    + intros i' r' Hir. apply Ho. rewrite Hout.
      apply in_app_or in Hir as [H|H]; apply in_or_app; [left | right; right]; exact H.
    + intros r' [= <-]. rewrite Hr. specialize (Hc w Hw). rewrite <- Hc. reflexivity.
  - destruct (cleanup_empties s Hs) as [Hj [Ho [Hc [Hst Hin]]]].
    destruct Hs as [_ [_ [_ [_ Hs5]]]].
    unfold inv. rewrite Hj, Ho, Hc, Hst, Hin. simpl.
    repeat split; intros; try contradiction; try discriminate; try lia. apply Hs5. assumption.
Qed.

Lemma reachable_inv (s : State) : reachable work s -> inv s.
Proof.
  induction 1 as [|s s' _ IH Hstep]; [apply inv_init | apply (inv_step s s' IH Hstep)].
Qed.

End Invariant.

(** C8: in every reachable state of the hook at most one worker is
    computing, and it is the worker of the last effect run; every reply
    still waiting to be dispatched comes from that worker and carries the
    result for the last [games] and [username]; so the [stats] shown are
    always the result for the last inputs.  Starting a new invocation
    (cleanup, then the effect) first discards every earlier worker and
    every reply not yet dispatched. *)
Theorem offload_latest_only (work : list ChessGame -> string -> TacticsStats) (s : State) :
  reachable work s ->
  (List.length (jobs s) <= 1)%nat /\
  (forall w, In w (jobs s) -> current s = Some w) /\
  (forall i r, In (i, r) (outbox s) ->
     exists w, current s = Some w /\ w_id w = i /\ r = work (w_games w) (w_user w)) /\
  (forall r, stats s = Some r -> r = work (fst (inputs s)) (snd (inputs s))) /\
  (forall games u,
     outbox (effect games u (cleanup s)) = [] /\
     jobs (effect games u (cleanup s)) = match current (effect games u (cleanup s)) with
                                         | Some w => [w]
                                         | None => []
                                         end).
Proof.
  intros Hr. pose proof (reachable_inv work s Hr) as Hs.
  destruct (cleanup_empties work s Hs) as [Hj0 [Ho0 _]].
  destruct Hs as [Hj [Hl [Ho [_ Hst]]]].
  split; [exact Hl|]. split; [exact Hj|]. split; [exact Ho|]. split; [exact Hst|].
  intros games u. unfold effect. destruct games; simpl; rewrite Hj0, Ho0; split; reflexivity.
Qed.

End OffloadFacts.

Lemma offload_latest_only_witness :
  let work := computeTacticsStats Inputs.failing_engine in
  let s := Offload.effect [Inputs.foreign_game] "alice"%string (Offload.cleanup Offload.init) in
  Offload.reachable work s /\ (List.length (Offload.jobs s) <= 1)%nat /\
  Offload.outbox (Offload.effect [] "alice"%string (Offload.cleanup s)) = [].
Proof.
  cbv zeta.
  assert (Hr : Offload.reachable (computeTacticsStats Inputs.failing_engine)
                 (Offload.effect [Inputs.foreign_game] "alice"%string (Offload.cleanup Offload.init))).
  { apply (Offload.reach_step _ Offload.init); [apply Offload.reach_init | apply Offload.step_inputs]. }
  destruct (OffloadFacts.offload_latest_only _ _ Hr) as [Hl [_ [_ [_ H]]]].
  split; [exact Hr|]. split; [exact Hl|]. apply (proj1 (H [] "alice"%string)).
Defined.

Section FloatFacts.

Lemma digits2_pos_low (p : positive) : 2 ^ (Zpos (digits2_pos p) - 1) <= Zpos p.
Proof.
  induction p as [p IH|p IH|]; cbn [digits2_pos]; try (simpl; lia);
  rewrite Pos2Z.inj_succ;
  replace (Z.succ (Z.pos (digits2_pos p)) - 1) with ((Zpos (digits2_pos p) - 1) + 1) by lia;
  rewrite Z.pow_add_r by lia; lia.
Qed.

Lemma digits2_pos_iter_xO (p k : positive) :
  digits2_pos (Pos.iter xO p k) = (digits2_pos p + k)%positive.
Proof.
  induction k as [|k IH] using Pos.peano_ind.
  - simpl. rewrite Pos.add_1_r. reflexivity.
  - rewrite Pos.iter_succ. cbn [digits2_pos]. rewrite IH, Pos.add_succ_r. reflexivity.
Qed.

Lemma round_aux_exact (mz : positive) (ez : Z) :
  Zpos (digits2_pos mz) = 53 -> -1074 <= ez <= 971 ->
  binary_round_aux prec emax false (Zpos mz) ez loc_Exact = S754_finite false mz ez.
Proof.
  intros Hd He. unfold binary_round_aux, shr_fexp. cbn [Zdigits2 shr_record_of_loc].
  assert (Hz : fexp prec emax (Zpos (digits2_pos mz) + ez) - ez = 0)
    by (rewrite Hd; unfold fexp, emin, prec, emax; lia).
  rewrite Hz. cbn [shr shr_m loc_of_shr_record round_nearest_even Zdigits2 shr_record_of_loc].
  rewrite Hz. cbn [shr shr_m].
  replace (Z.leb ez (emax - prec)) with true by (symmetry; apply Z.leb_le; unfold emax, prec; lia).
  reflexivity.
Qed.

Lemma of_Z_finite (z : Z) : 0 < z < 2 ^ 53 -> exists m e, of_Z z = S754_finite false m e.
Proof.
  intros [Hlo Hhi]. destruct z as [|p|p]; try lia.
  pose proof (digits2_pos_low p) as Hlow.
  assert (Hd : Zpos (digits2_pos p) <= 53).
  { destruct (Z.le_gt_cases (Zpos (digits2_pos p)) 53) as [H|H]; auto.
    assert (2 ^ 53 <= 2 ^ (Zpos (digits2_pos p) - 1)) by (apply Z.pow_le_mono_r; lia). lia. }
  unfold of_Z, binary_normalize, binary_round, shl_align.
  assert (Hf : fexp prec emax (Zpos (digits2_pos p) + 0) = Zpos (digits2_pos p) - 53)
    by (unfold fexp, emin, prec, emax; lia).
  rewrite Hf.
  destruct (Zpos (digits2_pos p) - 53 - 0) as [|k|k] eqn:E.
  - exists p, 0. apply round_aux_exact; lia.
  - lia.
  - exists (Pos.iter xO p k), (Zpos (digits2_pos p) - 53). apply round_aux_exact.
    + rewrite digits2_pos_iter_xO, Pos2Z.inj_add. lia.
    + lia.
Qed.

Lemma shr_1_nonneg (r : shr_record) : 0 <= shr_m r -> 0 <= shr_m (shr_1 r).
Proof. destruct r as [m rr ss]; simpl; intros H. destruct m as [|[p|p|]|[p|p|]]; simpl; lia. Qed.

Lemma iter_pos_nonneg (p : positive) : forall r, 0 <= shr_m r -> 0 <= shr_m (iter_pos shr_1 p r).
Proof. induction p; intros r H; simpl; auto using shr_1_nonneg. Qed.

Lemma shr_fexp_nonneg (m e : Z) (l : location) :
  0 <= m -> 0 <= shr_m (fst (shr_fexp prec emax m e l)).
Proof.
  intros H. assert (Hr : 0 <= shr_m (shr_record_of_loc m l)) by (destruct l as [|[]]; exact H).
  unfold shr_fexp, shr. destruct (_ - e); simpl; auto using iter_pos_nonneg.
Qed.

Lemma rne_nonneg (m : Z) (l : location) : 0 <= m -> 0 <= round_nearest_even m l.
Proof. destruct l as [|[]]; simpl; try destruct (Z.even m); lia. Qed.

Lemma round_aux_not_nan (s : bool) (m e : Z) (l : location) :
  0 <= m -> binary_round_aux prec emax s m e l <> S754_nan.
Proof.
  intros H. unfold binary_round_aux.
  pose proof (shr_fexp_nonneg m e l H) as H1.
  destruct (shr_fexp prec emax m e l) as [r1 e1]. simpl in H1.
  pose proof (shr_fexp_nonneg _ e1 loc_Exact (rne_nonneg _ (loc_of_shr_record r1) H1)) as H2.
  destruct (shr_fexp prec emax _ e1 loc_Exact) as [r2 e2]. simpl in H2.
  destruct (shr_m r2); [discriminate | destruct (Z.leb e2 _); discriminate | lia].
Qed.

Lemma of_Z_not_nan (z : Z) : of_Z z <> S754_nan.
Proof.
  unfold of_Z, binary_normalize, binary_round.
  destruct z as [|p|p]; [discriminate| |];
  destruct (shl_align _ _ _) as [mz ez]; apply round_aux_not_nan; lia.
Qed.

Lemma round_not_nan (x : num) : x <> S754_nan -> round x <> S754_nan.
Proof.
  intros H. unfold round. destruct x; auto.
  destruct (Z.leb 0 e); [discriminate|].
  destruct (Z.eqb _ 0); [discriminate | apply of_Z_not_nan].
Qed.

Lemma mul_finite_not_nan (x : num) (s : bool) (m : positive) (e : Z) :
  x <> S754_nan -> mul x (S754_finite s m e) <> S754_nan.
Proof.
  intros H. unfold mul, SFmul. destruct x; try discriminate; auto.
  apply round_aux_not_nan; lia.
Qed.

Lemma div_finite_not_nan (s1 : bool) (m1 : positive) (e1 : Z) (s2 : bool) (m2 : positive) (e2 : Z) :
  div (S754_finite s1 m1 e1) (S754_finite s2 m2 e2) <> S754_nan.
Proof.
  unfold div, SFdiv, SFdiv_core_binary. cbv zeta.
  match goal with |- context [Z.div_eucl ?a ?b] =>
    assert (Ha : 0 <= a);
    [ destruct (_ - _ - _); [lia | apply Z.shiftl_nonneg; lia | lia]
    | assert (Hq : 0 <= fst (Z.div_eucl a b))
        by (change (fst (Z.div_eucl a b)) with (a / b); apply Z.div_pos; lia);
      destruct (Z.div_eucl a b) as [q r]; simpl in Hq; apply round_aux_not_nan; exact Hq ]
  end.
Qed.

End FloatFacts.

Lemma of_nat_finite (n : nat) :
  n <> 0%nat -> Z.of_nat n < 2 ^ 53 -> exists m e, of_nat n = S754_finite false m e.
Proof. intros H1 H2. apply of_Z_finite. lia. Qed.

Lemma winPct_zero (n : nat) : winPct n 0 = S754_zero false.
Proof. reflexivity. Qed.

Lemma winPct_not_nan (n d : nat) :
  Z.of_nat n < 2 ^ 53 -> Z.of_nat d < 2 ^ 53 -> is_nan (winPct n d) = false.
Proof.
  intros Hn Hd. unfold winPct.
  destruct (Nat.eqb d 0) eqn:E; [reflexivity|].
  apply Nat.eqb_neq in E.
  assert (Hr : round (mul (div (of_nat n) (of_nat d)) (of_nat 100)) <> S754_nan).
  { apply round_not_nan.
    destruct (of_nat_finite 100) as (m3 & e3 & H3); [discriminate | lia |].
    rewrite H3. apply mul_finite_not_nan.
    destruct (of_nat_finite d) as (m2 & e2 & H2); auto. rewrite H2.
    destruct n as [|n'].
    - discriminate.
    - destruct (of_nat_finite (S n')) as (m1 & e1 & H1); [discriminate | lia |].
      rewrite H1. apply div_finite_not_nan. }
  destruct (round _); [reflexivity | reflexivity | congruence | reflexivity].
Qed.

Lemma sharePct_not_nan (k t : nat) : is_nan (sharePct k t) = false.
Proof. unfold sharePct, or_zero. destruct (round _); reflexivity. Qed.

Lemma in_firstn_in {A : Type} (n : nat) (l : list A) (x : A) : In x (firstn n l) -> In x l.
Proof. intros H. rewrite <- (firstn_skipn n l). apply in_or_app. left. exact H. Qed.

Lemma in_skipn_in {A : Type} (n : nat) (l : list A) (x : A) : In x (skipn n l) -> In x l.
Proof. intros H. rewrite <- (firstn_skipn n l). apply in_or_app. right. exact H. Qed.

Lemma bump_bucket_ok (i : option nat) (w : bool) (bs bs' : list Bucket) :
  bump_bucket i w bs = Some bs' -> Forall bucket_ok bs -> Forall bucket_ok bs'.
Proof.
  unfold bump_bucket. intros H Hall. rewrite Forall_forall in *.
  destruct i as [i|]; [|discriminate].
  destruct (nth_error bs i) as [b|] eqn:E; [|discriminate].
  injection H as <-. intros x Hx. apply in_app_or in Hx as [Hx|[<-|Hx]].
  - apply Hall. exact (in_firstn_in _ _ _ Hx).
  - pose proof (Hall b (nth_error_In _ _ E)) as Hb. unfold bucket_ok in *. simpl.
    destruct w; lia.
  - apply Hall. exact (in_skipn_in (S i) bs x Hx).
Qed.

Lemma bump_bucket_some (i : nat) (w : bool) (bs : list Bucket) :
  (i < List.length bs)%nat ->
  exists bs', bump_bucket (Some i) w bs = Some bs' /\ List.length bs' = List.length bs.
Proof.
  intros Hi. unfold bump_bucket.
  destruct (nth_error bs i) as [b|] eqn:E.
  - eexists. split; [reflexivity|].
    rewrite length_app, length_firstn. cbn [List.length]. rewrite length_skipn. lia.
  - apply nth_error_None in E. lia.
Qed.

Lemma calendar_fold_ok (hour_of day_of : Z -> option nat) (u : string) (games : list ChessGame) :
  forall acc cs,
  fold_left (calendar_step hour_of day_of u) games acc = Some cs ->
  exists hs ds, acc = Some (hs, ds) /\
    (Forall bucket_ok hs -> Forall bucket_ok ds -> Forall bucket_ok (fst cs) /\ Forall bucket_ok (snd cs)).
Proof.
  induction games as [|g gs IH]; intros acc cs H; simpl in H.
  - subst acc. destruct cs as [hs ds]. exists hs, ds. auto.
  - destruct (IH _ _ H) as (hs1 & ds1 & Hacc & Himp).
    destruct acc as [[hs ds]|]; [|discriminate].
    exists hs, ds. split; [reflexivity|]. intros Hh Hd.
    unfold calendar_step in Hacc.
    destruct (bump_bucket (hour_of (end_time g)) _ hs) as [hs'|] eqn:E1; [|discriminate].
    destruct (bump_bucket (day_of (end_time g)) _ ds) as [ds'|] eqn:E2; [|discriminate].
    injection Hacc as <- <-. apply Himp.
    + exact (bump_bucket_ok _ _ _ _ E1 Hh).
    + exact (bump_bucket_ok _ _ _ _ E2 Hd).
Qed.

Lemma calendar_fold_total (hour_of day_of : Z -> option nat) (u : string) (games : list ChessGame) :
  (forall g, In g games -> exists h d, hour_of (end_time g) = Some h /\ (h < 24)%nat /\
                                 day_of (end_time g) = Some d /\ (d < 7)%nat) ->
  forall hs ds, List.length hs = 24%nat -> List.length ds = 7%nat ->
  exists hs' ds', fold_left (calendar_step hour_of day_of u) games (Some (hs, ds)) = Some (hs', ds').
Proof.
  induction games as [|g gs IH]; intros Hin hs ds Hh Hd; cbn [fold_left].
  - eauto.
  - destruct (Hin g (or_introl eq_refl)) as (h & d & E1 & Hlt1 & E2 & Hlt2).
    destruct (bump_bucket_some h (GameResult_eqb (getResult g u) Win) hs) as (hs' & B1 & L1); [lia|].
    destruct (bump_bucket_some d (GameResult_eqb (getResult g u) Win) ds) as (ds' & B2 & L2); [lia|].
    assert (Hs : calendar_step hour_of day_of u (Some (hs, ds)) g = Some (hs', ds'))
      by (unfold calendar_step; rewrite E1, B1, E2, B2; reflexivity).
    rewrite Hs. apply IH; [intros g' Hg'; apply Hin; right; exact Hg' | lia | lia].
Qed.

Lemma entries_winPct (bs : list Bucket) :
  Forall bucket_ok bs ->
  Forall (fun e => ce_winPct e = winPct (ce_wins e) (ce_games e) /\ (ce_wins e <= ce_games e)%nat)
         (entries bs).
Proof.
  intros Hall. rewrite Forall_forall in *. intros e He. unfold entries in He.
  apply in_map_iff in He as ([k b] & <- & Hkb). simpl.
  split; [reflexivity|]. apply (Hall b). exact (in_combine_r _ _ _ _ Hkb).
Qed.

Lemma castling_fold_le (u : string) (games : list ChessGame) :
  forall cs ws, pc_le ws cs ->
  pc_le (snd (fold_left (castling_step u) games (cs, ws))) (fst (fold_left (castling_step u) games (cs, ws))).
Proof.
  induction games as [|g gs IH]; intros cs ws H; simpl; auto.
  apply IH. unfold pc_le in *.
  destruct (detectCastling (pgn g)), (GameResult_eqb (getResult g u) Win); simpl; lia.
Qed.

Lemma computeOpeningStats_elems (games : list ChessGame) (u : string) (color : Color) (topN : nat)
  (o : OpeningStats) :
  In o (computeOpeningStats games u color topN) -> exists a, o = with_count a.
Proof.
  unfold computeOpeningStats. intros H. apply in_firstn_in in H.
  apply (Permutation_in _ (sort_desc_perm count_key _)) in H.
  unfold opening_groups in H. apply in_map_iff in H as (kv & <- & _). eauto.
Qed.

(** C4 (corrected): every percentage field of the aggregators is the
    helper [winPct] or the castling share applied to its own numerator
    and denominator.  [winPct] is +0 when the denominator is 0 and never
    NaN for counts below 2^53; the castling share is never NaN (the
    [|| 0] maps NaN to 0) and is 0 for 0 of 0.  On an empty batch every
    field is 0.  The aggregators are total functions, except that
    [computeCalendarStats] throws when a date gives an hour or day key
    outside the maps: it returns a value whenever every key is in range. *)
Theorem percentage_fields_guarded :
  (forall n, winPct n 0 = S754_zero false) /\
  (forall n d, Z.of_nat n < 2 ^ 53 -> Z.of_nat d < 2 ^ 53 -> is_nan (winPct n d) = false) /\
  (forall k t, is_nan (sharePct k t) = false) /\
  sharePct 0 0 = S754_zero false /\
  (forall games u,
     let r := computeResultCounts games u in
     (rc_wins r + rc_losses r + rc_draws r = rc_total r)%nat /\
     rc_total r = List.length games /\
     rc_winPct r = winPct (rc_wins r) (rc_total r) /\
     rc_lossPct r = winPct (rc_losses r) (rc_total r) /\
     rc_drawPct r = winPct (rc_draws r) (rc_total r)) /\
  (forall games u,
     let c := computeCastlingStats games u in
     kingsidePct c = sharePct (c_kingside (counts c)) (List.length games) /\
     queensidePct c = sharePct (c_queenside (counts c)) (List.length games) /\
     noCastlePct c = sharePct (c_none (counts c)) (List.length games) /\
     exists ws, pc_le ws (counts c) /\
       kingsideWinPct c = winPct (c_kingside ws) (c_kingside (counts c)) /\
       queensideWinPct c = winPct (c_queenside ws) (c_queenside (counts c)) /\
       noCastleWinPct c = winPct (c_none ws) (c_none (counts c))) /\
  (forall games u color topN,
     Forall (fun o => os_winPct o = winPct (os_wins o) (os_count o) /\ (os_wins o <= os_count o)%nat)
            (computeOpeningStats games u color topN)) /\
  (forall hour_of day_of games u cs,
     computeCalendarStats hour_of day_of games u = Some cs ->
     Forall (fun e => ce_winPct e = winPct (ce_wins e) (ce_games e) /\ (ce_wins e <= ce_games e)%nat)
            (hourOfDay cs ++ dayOfWeek cs)) /\
  (forall hour_of day_of games u,
     (forall g, In g games -> exists h d, hour_of (end_time g) = Some h /\ (h < 24)%nat /\
                                    day_of (end_time g) = Some d /\ (d < 7)%nat) ->
     exists cs, computeCalendarStats hour_of day_of games u = Some cs) /\
  (forall u,
     let r := computeResultCounts [] u in
     rc_winPct r = S754_zero false /\ rc_lossPct r = S754_zero false /\
     rc_drawPct r = S754_zero false) /\
  (forall u,
     let c := computeCastlingStats [] u in
     kingsidePct c = S754_zero false /\ queensidePct c = S754_zero false /\
     noCastlePct c = S754_zero false /\ kingsideWinPct c = S754_zero false /\
     queensideWinPct c = S754_zero false /\ noCastleWinPct c = S754_zero false) /\
  (forall u color topN, computeOpeningStats [] u color topN = []) /\
  (forall hour_of day_of u, exists cs,
     computeCalendarStats hour_of day_of [] u = Some cs /\
     Forall (fun e => ce_winPct e = S754_zero false) (hourOfDay cs ++ dayOfWeek cs)).
Proof.
  split; [exact winPct_zero|].
  split; [exact winPct_not_nan|].
  split; [exact sharePct_not_nan|].
  split; [reflexivity|].
  split.
  { intros games u. cbv zeta.
    pose proof (computeResultCounts_total games u) as Ht.
    unfold computeResultCounts in *.
    destruct (fold_left (tally u) games (0, 0, 0)%nat) as [[w l] d]. simpl in *.
    repeat split; auto. }
  split.
  { intros games u. cbv zeta. unfold computeCastlingStats.
    pose proof (castling_fold_le u games pc_zero pc_zero) as Hle.
    destruct (fold_left (castling_step u) games (pc_zero, pc_zero)) as [cs ws]. simpl in *.
    split; [reflexivity|]. split; [reflexivity|]. split; [reflexivity|].
    exists ws. split; [apply Hle; unfold pc_le; simpl; lia | repeat split]. }
  split.
  { intros games u color topN. apply Forall_forall. intros o Ho.
    destruct (computeOpeningStats_elems _ _ _ _ _ Ho) as [a ->]. simpl. split; [reflexivity | lia]. }
  split.
  { intros hour_of day_of games u cs H. unfold computeCalendarStats in H.
    destruct (fold_left (calendar_step hour_of day_of u) games _) as [[hs ds]|] eqn:E;
      [|discriminate].
    injection H as <-. simpl.
    destruct (calendar_fold_ok hour_of day_of u games _ _ E) as (hs0 & ds0 & Heq & Himp).
    injection Heq as <- <-.
    assert (Hz : forall n, Forall bucket_ok (repeat bucket0 n))
      by (intros n; apply Forall_forall; intros b Hb; apply repeat_spec in Hb; subst b;
          unfold bucket_ok; simpl; lia).
    destruct (Himp (Hz 24%nat) (Hz 7%nat)) as [Hh Hd]. simpl in Hh, Hd.
    apply Forall_app. split; apply entries_winPct; assumption. }
  split.
  { intros hour_of day_of games u Hin. unfold computeCalendarStats.
    destruct (calendar_fold_total hour_of day_of u games Hin (repeat bucket0 24) (repeat bucket0 7))
      as (hs & ds & E); [apply repeat_length | apply repeat_length |].
    rewrite E. eauto. }
  split; [intros u; repeat split; reflexivity|].
  split; [intros u; repeat split; reflexivity|].
  split; [intros u color [|topN]; reflexivity|].
  intros hour_of day_of u. eexists. split; [reflexivity|].
  cbn. repeat constructor.
Qed.

Lemma percentage_fields_guarded_witness :
  is_nan (winPct 29 200) = false /\
  exists cs, computeCalendarStats (fun _ => Some 21%nat) (fun _ => Some 2%nat) [Inputs.win_game] "alice" = Some cs.
Proof.
  destruct percentage_fields_guarded as (_ & Hnan & _ & _ & _ & _ & _ & _ & Hcal & _).
  split.
  - apply Hnan; lia.
  - apply Hcal. intros g [<-|[]]. exists 21%nat, 2%nat. repeat split; lia.
Defined.

(** C4, counterexample: with 29 wins in 200 games the double-precision
    quotient [29 / 200] times 100 is 14.499999999999998, so [winPct]
    gives 14, where half-up rounding of the exact ratio 14.5 gives 15. *)
Lemma percentage_not_exact_half_up :
  rc_wins (computeResultCounts Inputs.batch_29_of_200 "alice") = 29%nat /\
  rc_total (computeResultCounts Inputs.batch_29_of_200 "alice") = 200%nat /\
  half_up_pct 29 200 = 15 /\
  rc_winPct (computeResultCounts Inputs.batch_29_of_200 "alice") = of_Z 14 /\
  rc_winPct (computeResultCounts Inputs.batch_29_of_200 "alice") <> of_Z (half_up_pct 29 200).
Proof.
  split; [vm_compute; reflexivity|].
  split; [vm_compute; reflexivity|].
  split; [vm_compute; reflexivity|].
  split; [vm_compute; reflexivity|].
  intros H. vm_compute in H. discriminate H.
Qed.

(* ------------------------------------------------------------------ *)
(** ** Rating history *)

Lemma StronglySorted_weaken {A} (R R' : A -> A -> Prop) (l : list A) :
  (forall a b, R a b -> R' a b) -> StronglySorted R l -> StronglySorted R' l.
Proof.
  intros HR Hs. induction Hs as [|x l Hs IH Hx]; constructor.
  - exact IH.
  - apply Forall_forall. intros y Hy. apply HR. exact (proj1 (Forall_forall _ _) Hx y Hy).
Qed.

(** [computeRatingHistory] returns exactly one point per game (the date,
    the subject's side rating and the time class of that game), rearranged
    so that the dates never decrease. *)
Theorem computeRatingHistory_sorted_points (games : list ChessGame) (u : string) :
  Permutation (computeRatingHistory games u) (map (rating_point u) games) /\
  StronglySorted (fun a b => rp_date a <= rp_date b) (computeRatingHistory games u).
Proof.
  unfold computeRatingHistory. split.
  - apply sort_desc_perm.
  - eapply StronglySorted_weaken; [|apply sort_desc_sorted].
    intros a b H. unfold desc in H. lia.
Qed.

(** The sort of [computeRatingHistory] is stable: the points of the games
    that ended at the same time [d] come in the order of the games in the
    input. *)
Theorem computeRatingHistory_stable (games : list ChessGame) (u : string) (d : Z) :
  filter (fun p => rp_date p =? d) (computeRatingHistory games u)
  = map (rating_point u) (filter (fun g => end_time g =? d) games).
Proof.
  unfold computeRatingHistory.
  transitivity (filter (fun p => - rp_date p =? - d) (sort_desc (fun p => - rp_date p) (map (rating_point u) games))).
  { apply filter_ext. intros p. destruct (Z.eqb_spec (rp_date p) d), (Z.eqb_spec (- rp_date p) (- d)); lia. }
  rewrite sort_desc_stable.
  induction games as [|g gs IH]; [reflexivity|].
  cbn [map filter]. rewrite IH. unfold rating_point at 1. cbn [rp_date].
  destruct (Z.eqb_spec (end_time g) d), (Z.eqb_spec (- end_time g) (- d)); try lia; reflexivity.
Qed.

(* ------------------------------------------------------------------ *)
(** ** Game phases *)

Lemma phase_fold (u : string) (games : list ChessGame) (pd : PhaseData) :
  fold_left (phase_step u) games pd =
  {| pd_opening := fold_left (tally u) (filter (in_phase PhaseOpening) games) (pd_opening pd);
     pd_middlegame := fold_left (tally u) (filter (in_phase PhaseMiddlegame) games) (pd_middlegame pd);
     pd_endgame := fold_left (tally u) (filter (in_phase PhaseEndgame) games) (pd_endgame pd) |}.
Proof.
  revert pd. induction games as [|g gs IH]; intros pd.
  - destruct pd. reflexivity.
  - cbn [fold_left filter]. rewrite IH. unfold phase_step, in_phase.
    destruct (classifyGamePhase (pgn g)); reflexivity.
Qed.

(** Each phase entry of [computeGamePhaseStats] is the [computeResultCounts]
    of the games of that phase. *)
Theorem computeGamePhaseStats_by_phase (games : list ChessGame) (u : string) :
  gp_opening (computeGamePhaseStats games u) = computeResultCounts (filter (in_phase PhaseOpening) games) u /\
  gp_middlegame (computeGamePhaseStats games u) = computeResultCounts (filter (in_phase PhaseMiddlegame) games) u /\
  gp_endgame (computeGamePhaseStats games u) = computeResultCounts (filter (in_phase PhaseEndgame) games) u.
Proof.
  unfold computeGamePhaseStats. rewrite phase_fold. cbn [pd_opening pd_middlegame pd_endgame gp_opening gp_middlegame gp_endgame].
  unfold computeResultCounts, results_of.
  repeat split;
    match goal with |- context [fold_left (tally u) ?l (0, 0, 0)%nat] =>
      destruct (fold_left (tally u) l (0, 0, 0)%nat) as [[? ?] ?]; reflexivity end.
Qed.

Lemma phase_partition (games : list ChessGame) :
  (List.length (filter (in_phase PhaseOpening) games) + List.length (filter (in_phase PhaseMiddlegame) games)
   + List.length (filter (in_phase PhaseEndgame) games) = List.length games)%nat.
Proof.
  induction games as [|g gs IH]; [reflexivity|].
  cbn [filter List.length]. unfold in_phase in *.
  destruct (classifyGamePhase (pgn g)); cbn [GamePhase_eqb List.length]; lia.
Qed.

(** Every game lands in exactly one phase: the totals of the three phases
    of [computeGamePhaseStats] add up to the number of games. *)
Theorem computeGamePhaseStats_total (games : list ChessGame) (u : string) :
  (rc_total (gp_opening (computeGamePhaseStats games u)) + rc_total (gp_middlegame (computeGamePhaseStats games u))
   + rc_total (gp_endgame (computeGamePhaseStats games u)) = List.length games)%nat.
Proof.
  pose proof (computeGamePhaseStats_by_phase games u) as [H1 [H2 H3]].
  rewrite H1, H2, H3, !computeResultCounts_total. apply phase_partition.
Qed.

Lemma list_ascii_of_string_app (p q : string) :
  list_ascii_of_string (p ++ q) = list_ascii_of_string p ++ list_ascii_of_string q.
Proof.
  induction p as [|c p IH]; simpl; [reflexivity|]. rewrite IH. reflexivity.
Qed.

Lemma count_move_numbers_app (b : bool) (s t : list ascii) :
  (count_move_numbers b s <= count_move_numbers b (s ++ t))%nat.
Proof.
  revert b. induction s as [|c s IH]; intros b; cbn [count_move_numbers app]; [lia|].
  destruct (Scan.is_digit c); [apply IH|].
  destruct (b && Ascii.eqb c "."); [specialize (IH false); lia | apply IH].
Qed.

(** Appending text to a PGN never moves it to an earlier phase: the
    phase of [classifyGamePhase] only advances as the movetext grows. *)
Theorem classifyGamePhase_monotone (p q : string) :
  (phase_rank (classifyGamePhase p) <= phase_rank (classifyGamePhase (p ++ q)))%nat.
Proof.
  unfold classifyGamePhase. rewrite list_ascii_of_string_app.
  pose proof (count_move_numbers_app false (list_ascii_of_string p) (list_ascii_of_string q)) as H.
  set (a := count_move_numbers false (list_ascii_of_string p)) in *.
  set (b := count_move_numbers false _) in H |- *.
  destruct (Nat.ltb_spec a 12), (Nat.ltb_spec b 12), (Nat.ltb_spec a 40), (Nat.ltb_spec b 40);
    cbn [phase_rank]; lia.
Qed.

(* ------------------------------------------------------------------ *)
(** ** PGN move tokens *)

Lemma strip_results_chars (s : list ascii) (c : ascii) :
  In c (Pgn.strip_results s) -> In c s /\ c <> "*"%char.
Proof.
  enough (H : forall n s, (List.length s <= n)%nat -> In c (Pgn.strip_results s) -> In c s /\ c <> "*"%char)
    by exact (H _ s (le_n _)).
  clear s. induction n as [|n IH]; intros s Hl Hin.
  - destruct s; [contradiction | simpl in Hl; lia].
  - destruct s as [|x r]; [contradiction|]. cbn [List.length] in Hl.
    assert (Hrest : In c (if Ascii.eqb x "*" then Pgn.strip_results r else x :: Pgn.strip_results r) ->
                    In c (x :: r) /\ c <> "*"%char).
    { intros Hr. destruct (Ascii.eqb_spec x "*") as [->|Hx].
      - destruct (IH r ltac:(lia) Hr) as [H1 H2]. split; [right|]; assumption.
      - destruct Hr as [<-|Hr]; [split; [left; reflexivity | exact Hx]|].
        destruct (IH r ltac:(lia) Hr) as [H1 H2]. split; [right|]; assumption. }
    cbn [Pgn.strip_results] in Hin.
    destruct r as [|y [|z r3]]; try (apply Hrest; exact Hin).
    destruct (Scan.prefixb _ _ || Scan.prefixb _ _).
    + cbn [List.length] in Hl. destruct (IH r3 ltac:(lia) Hin) as [H1 H2].
      split; [right; right; right|]; assumption.
    + destruct r3 as [|a [|b [|d [|e r7]]]]; try (apply Hrest; exact Hin).
      destruct (Scan.prefixb _ _).
      * cbn [List.length] in Hl. destruct (IH r7 ltac:(lia) Hin) as [H1 H2].
        split; [do 7 right|]; assumption.
      * apply Hrest; exact Hin.
Qed.

Lemma drop_spaces_in (s : list ascii) (c : ascii) : In c (Scan.drop_spaces s) -> In c s.
Proof.
  induction s as [|x r IH]; simpl; [auto|].
  destruct (Scan.is_space x); [intros H; right; apply IH, H | auto].
Qed.

Lemma trim_in (s : list ascii) (c : ascii) : In c (Scan.trim s) -> In c s.
Proof.
  unfold Scan.trim. intros H.
  apply in_rev, drop_spaces_in, in_rev, drop_spaces_in in H. exact H.
Qed.

Lemma split_ws_pieces (b : bool) (cur s : list ascii) (piece : list ascii) (c : ascii) :
  (forall x, In x cur -> Scan.is_space x = false) ->
  In piece (Pgn.split_ws b cur s) -> In c piece ->
  (In c cur \/ In c s) /\ Scan.is_space c = false.
Proof.
  revert b cur. induction s as [|x r IH]; intros b cur Hcur Hp Hc; cbn [Pgn.split_ws] in Hp.
  - destruct Hp as [<-|[]]. apply in_rev in Hc. split; [left; exact Hc | apply Hcur, Hc].
  - destruct (Scan.is_space x) eqn:Hx.
    + assert (Hr : In piece (Pgn.split_ws true [] r) -> (In c cur \/ In c (x :: r)) /\ Scan.is_space c = false).
      { intros Hp'. destruct (IH true [] ltac:(intros ? [])  Hp' Hc) as [[[]|H1] H2].
        split; [right; right|]; assumption. }
      destruct b; [apply Hr, Hp|].
      destruct Hp as [<-|Hp]; [|apply Hr, Hp].
      apply in_rev in Hc. split; [left; exact Hc | apply Hcur, Hc].
    + destruct (IH false (x :: cur)) with (3 := Hc) as [[[<-|H1]|H1] H2]; try exact Hp.
      * intros y [<-|Hy]; [exact Hx | apply Hcur, Hy].
      * split; [right; left; reflexivity | assumption].
      * split; [left|]; assumption.
      * split; [right; right|]; assumption.
Qed.

(** Every token returned by [parsePgnMoveTokens] is non-empty, contains no
    white space and no [*] (a result marker left over is removed), and
    is not a move number such as [12.] or [12...]. *)
Theorem parsePgnMoveTokens_tokens (p t : string) :
  In t (parsePgnMoveTokens p) ->
  t <> EmptyString /\ Scan.is_move_token t = false /\
  (forall c, In c (list_ascii_of_string t) -> Scan.is_space c = false /\ c <> "*"%char).
Proof.
  unfold parsePgnMoveTokens. intros Ht.
  apply filter_In in Ht as [Ht Hmv]. apply filter_In in Ht as [Ht Hne].
  apply in_map_iff in Ht as [piece [<- Hpiece]].
  apply negb_true_iff in Hmv, Hne. apply String.eqb_neq in Hne.
  split; [exact Hne|]. split; [exact Hmv|].
  intros c Hc. rewrite list_ascii_of_string_of_list_ascii in Hc.
  destruct (split_ws_pieces false [] _ piece c ltac:(intros ? []) Hpiece Hc) as [[[]|Hin] Hsp].
  split; [exact Hsp|].
  apply trim_in, strip_results_chars in Hin. apply Hin.
Qed.

Lemma parsePgnMoveTokens_tokens_witness :
  In "Nf3"%string (parsePgnMoveTokens (pgn Inputs.ruy_lopez_game)) /\
  "Nf3"%string <> EmptyString /\ Scan.is_move_token "Nf3" = false /\
  (forall c, In c (list_ascii_of_string "Nf3") -> Scan.is_space c = false /\ c <> "*"%char).
Proof.
  assert (H : In "Nf3"%string (parsePgnMoveTokens (pgn Inputs.ruy_lopez_game))).
  { vm_compute. right. right. left. reflexivity. }
  split; [exact H|]. exact (parsePgnMoveTokens_tokens (pgn Inputs.ruy_lopez_game) "Nf3" H).
Defined.

(* ------------------------------------------------------------------ *)
(** ** Piece move frequency *)

Lemma pm_add_assoc (a b c : PieceMoveCounts) : pm_add a (pm_add b c) = pm_add (pm_add a b) c.
Proof. destruct a, b, c. unfold pm_add. simpl. f_equal; lia. Qed.

Lemma pm_add_zero_r (a : PieceMoveCounts) : pm_add a pm_zero = a.
Proof. destruct a. unfold pm_add. simpl. f_equal; lia. Qed.

Lemma pm_add_zero_l (a : PieceMoveCounts) : pm_add pm_zero a = a.
Proof. destruct a. reflexivity. Qed.

Lemma pm_add_comm (a b : PieceMoveCounts) : pm_add a b = pm_add b a.
Proof. destruct a, b. unfold pm_add. simpl. f_equal; lia. Qed.

Lemma count_piece_add (c : PieceMoveCounts) (m : string) :
  count_piece c m = pm_add c (count_piece pm_zero m).
Proof.
  destruct c. unfold count_piece. destruct (classifyMove m) as [[]|];
    unfold pm_add; simpl; f_equal; lia.
Qed.

Lemma fold_count_piece (l : list string) (c : PieceMoveCounts) :
  fold_left count_piece l c = pm_add c (piece_counts l).
Proof.
  unfold piece_counts. revert c. induction l as [|m l IH]; intros c; cbn [fold_left].
  - symmetry. apply pm_add_zero_r.
  - rewrite IH, (IH (count_piece pm_zero m)), count_piece_add. apply eq_sym, pm_add_assoc.
Qed.

Lemma piece_counts_cons (m : string) (l : list string) :
  piece_counts (m :: l) = pm_add (piece_counts [m]) (piece_counts l).
Proof.
  unfold piece_counts at 1. cbn [fold_left]. rewrite fold_count_piece. reflexivity.
Qed.

Lemma every_other_split (l : list string) :
  pm_add (piece_counts (every_other l)) (piece_counts (every_other (tl l))) = piece_counts l.
Proof.
  enough (H : forall n l, (List.length l <= n)%nat ->
            pm_add (piece_counts (every_other l)) (piece_counts (every_other (tl l))) = piece_counts l)
    by exact (H _ l (le_n _)).
  clear l. induction n as [|n IH]; intros l Hl.
  - destruct l; [reflexivity | simpl in Hl; lia].
  - destruct l as [|x [|y r]]; [reflexivity| |].
    + cbn [every_other tl]. apply pm_add_zero_r.
    + cbn [List.length] in Hl.
      assert (Hx : every_other (x :: y :: r) = x :: every_other r) by reflexivity.
      assert (Hy : every_other (tl (x :: y :: r)) = y :: every_other (tl r)) by (destruct r; reflexivity).
      rewrite Hx, Hy, piece_counts_cons, (piece_counts_cons y), (piece_counts_cons x (y :: r)),
        (piece_counts_cons y r), <- (IH r) by lia.
      set (px := piece_counts [x]). set (py := piece_counts [y]).
      set (a := piece_counts (every_other r)). set (b := piece_counts (every_other (tl r))).
      rewrite <- !pm_add_assoc. f_equal. rewrite (pm_add_comm a), <- !pm_add_assoc. f_equal.
      apply pm_add_comm.
Qed.

Lemma piece_fold (u : string) (games : list ChessGame) (c : PieceMoveCounts) :
  fold_left (fun counts game =>
               fold_left count_piece
                 (player_tokens (playedAsWhite game u) (parsePgnMoveTokens (pgn game))) counts)
            games c
  = pm_add c (computePieceMoveFrequency games u).
Proof.
  unfold computePieceMoveFrequency. revert c. induction games as [|g gs IH]; intros c; cbn [fold_left].
  - symmetry. apply pm_add_zero_r.
  - rewrite IH, (IH (fold_left count_piece _ pm_zero)), !fold_count_piece, pm_add_zero_l.
    apply eq_sym, pm_add_assoc.
Qed.

(** [computePieceMoveFrequency] adds up over the games: the counts of a
    concatenation of two batches are the sums of the counts of each. *)
Theorem computePieceMoveFrequency_app (gs1 gs2 : list ChessGame) (u : string) :
  computePieceMoveFrequency (gs1 ++ gs2) u
  = pm_add (computePieceMoveFrequency gs1 u) (computePieceMoveFrequency gs2 u).
Proof.
  unfold computePieceMoveFrequency at 1. rewrite fold_left_app.
  change (fold_left _ gs1 pm_zero) with (computePieceMoveFrequency gs1 u).
  apply piece_fold.
Qed.

(** In one game, the moves counted for White (tokens 0, 2, 4, ...) and for
    Black (tokens 1, 3, 5, ...) split the moves of the game: for a subject
    [u] playing White and a subject [v] playing Black, the two counts add
    up to the counts of all tokens. *)
Theorem computePieceMoveFrequency_sides (g : ChessGame) (u v : string)
  (Hu : playedAsWhite g u = true) (Hv : playedAsWhite g v = false) :
  pm_add (computePieceMoveFrequency [g] u) (computePieceMoveFrequency [g] v)
  = piece_counts (parsePgnMoveTokens (pgn g)).
Proof.
  unfold computePieceMoveFrequency. cbn [fold_left]. rewrite Hu, Hv. unfold player_tokens.
  rewrite !fold_count_piece, !pm_add_zero_l. apply every_other_split.
Qed.

Lemma computePieceMoveFrequency_sides_witness :
  playedAsWhite Inputs.ruy_lopez_game "alice" = true /\ playedAsWhite Inputs.ruy_lopez_game "bob" = false /\
  pm_add (computePieceMoveFrequency [Inputs.ruy_lopez_game] "alice") (computePieceMoveFrequency [Inputs.ruy_lopez_game] "bob")
  = piece_counts (parsePgnMoveTokens (pgn Inputs.ruy_lopez_game)).
Proof.
  split; [vm_compute; reflexivity|]. split; [vm_compute; reflexivity|].
  apply computePieceMoveFrequency_sides; vm_compute; reflexivity.
Defined.

(* ------------------------------------------------------------------ *)
(** ** Dates and the activity heatmap *)

Lemma toISOString_None (t : Z) : toISOString t = None <-> max_time < Z.abs t.
Proof.
  unfold toISOString. destruct (Z.leb_spec (Z.abs t) max_time) as [H|H].
  - destruct (civil_from_days (t / 86400000)) as [[y m] d]. split; [discriminate | lia].
  - split; [intros _; exact H | reflexivity].
Qed.

Lemma day_of_game_None (g : ChessGame) : day_of_game g = None <-> max_time < Z.abs (end_time g * 1000).
Proof.
  unfold day_of_game. rewrite <- toISOString_None.
  destruct (toISOString (end_time g * 1000)); simpl; split; congruence.
Qed.

Lemma heat_fold_from_None (u : string) (gs : list ChessGame) : fold_left (heat_step u) gs None = None.
Proof. induction gs as [|g gs IH]; [reflexivity | exact IH]. Qed.

Lemma heat_step_Some (u : string) (m : list (string * DayActivity)) (g : ChessGame) :
  heat_step u (Some m) g = None <-> day_of_game g = None.
Proof.
  unfold heat_step. destruct (day_of_game g); split; congruence.
Qed.

Lemma heat_fold_None (u : string) (gs : list ChessGame) (m : list (string * DayActivity)) :
  fold_left (heat_step u) gs (Some m) = None <-> Exists (fun g => day_of_game g = None) gs.
Proof.
  revert m. induction gs as [|g gs IH]; intros m; cbn [fold_left].
  - split; [discriminate | intros H; inversion H].
  - rewrite Exists_cons. destruct (heat_step u (Some m) g) as [m'|] eqn:Hs.
    + rewrite IH. assert (day_of_game g <> None) by (intros Hd; apply (proj2 (heat_step_Some u m g)) in Hd; congruence).
      tauto.
    + rewrite heat_fold_from_None. apply (proj1 (heat_step_Some u m g)) in Hs. split; [intros _; left; exact Hs | reflexivity].
Qed.

(** [computeActivityHeatmap] throws (the [RangeError] of [toISOString])
    exactly when some game ends at a time whose value in milliseconds lies
    beyond the range of JavaScript dates (more than 8.64e15 in magnitude);
    otherwise it returns. *)
Theorem computeActivityHeatmap_throws (games : list ChessGame) (u : string) :
  computeActivityHeatmap games u = None <-> Exists (fun g => max_time < Z.abs (end_time g * 1000)) games.
Proof.
  unfold computeActivityHeatmap.
  assert (Hiff : Exists (fun g => day_of_game g = None) games <->
                 Exists (fun g => max_time < Z.abs (end_time g * 1000)) games).
  { split; apply Exists_impl; intros g; apply day_of_game_None. }
  rewrite <- Hiff, <- (heat_fold_None u games []).
  destruct (fold_left (heat_step u) games (Some [])); split; congruence.
Qed.

Lemma games_of_day_snoc (gs : list ChessGame) (g : ChessGame) (d k : string) :
  day_of_game g = Some d ->
  games_of_day (gs ++ [g]) k = games_of_day gs k ++ (if String.eqb d k then [g] else []).
Proof.
  intros Hd. unfold games_of_day. rewrite filter_app. simpl. rewrite Hd.
  destruct (String.eqb d k); reflexivity.
Qed.

Lemma games_of_day_absent (gs : list ChessGame) (d : string) (m : list (string * DayActivity)) :
  (forall g, In g gs -> exists d', day_of_game g = Some d' /\ In d' (map fst m)) ->
  ~ In d (map fst m) -> games_of_day gs d = [].
Proof.
  intros Hcov Hn. unfold games_of_day. apply filter_none. intros g Hg.
  destruct (Hcov g Hg) as [d' [Hd' Hin]]. rewrite Hd'.
  apply String.eqb_neq. intros ->. exact (Hn Hin).
Qed.

Lemma sum_counts_map_set (d : string) (e' : DayActivity) (m : list (string * DayActivity)) :
  (sum_counts (map snd (map_set d e' m)) + match map_get d m with Some e0 => da_count e0 | None => 0 end
   = sum_counts (map snd m) + da_count e')%nat.
Proof.
  induction m as [|[k e] r IH]; simpl; [lia|].
  destruct (String.eqb d k); simpl; lia.
Qed.

Lemma heat_inv_step (u : string) (seen : list ChessGame) (m : list (string * DayActivity))
  (g : ChessGame) (d : string) :
  heat_inv u seen m -> day_of_game g = Some d ->
  exists m', heat_step u (Some m) g = Some m' /\ heat_inv u (seen ++ [g]) m'.
Proof.
  intros [Hnd [Hent [Hcov Hsum]]] Hd.
  unfold heat_step. rewrite Hd. eexists. split; [reflexivity|].
  set (entry := match map_get d m with
                | Some e => e
                | None => {| da_date := d; da_count := 0; da_wins := 0; da_losses := 0; da_draws := 0 |}
                end).
  (* the entry read from the map describes the day [d] before the game *)
  assert (Hentry : da_date entry = d /\ da_count entry = games_on seen d /\
                   da_wins entry = results_on seen u d Win /\ da_losses entry = results_on seen u d Loss /\
                   da_draws entry = results_on seen u d Draw).
  { subst entry. destruct (map_get d m) as [e0|] eqn:Hg.
    - apply Hent. apply map_get_In, Hg.
    - pose proof (games_of_day_absent seen d m Hcov (map_get_None d m Hg)) as Hz.
      unfold games_on, results_on. rewrite Hz. repeat split. }
  set (entry' := {| da_date := da_date entry; da_count := S (da_count entry);
                    da_wins := match getResult g u with Win => S (da_wins entry) | _ => da_wins entry end;
                    da_losses := match getResult g u with Loss => S (da_losses entry) | _ => da_losses entry end;
                    da_draws := match getResult g u with Draw => S (da_draws entry) | _ => da_draws entry end |}).
  assert (Hkeys : NoDup (map fst (map_set d entry' m)) /\
                  forall k, In k (map fst m) -> In k (map fst (map_set d entry' m))).
  { destruct (in_dec String.string_dec d (map fst m)) as [Hin|Hnin].
    - rewrite map_set_keys_in by exact Hin. split; [exact Hnd | auto].
    - rewrite map_set_keys_new by exact Hnin. split.
      + apply NoDup_app; [exact Hnd | repeat constructor; simpl; tauto |].
        intros x Hx [<-|[]]. exact (Hnin Hx).
      + intros k Hk. apply in_or_app. left. exact Hk. }
  assert (Hdin : In d (map fst (map_set d entry' m))).
  { destruct (in_dec String.string_dec d (map fst m)) as [Hin|Hnin].
    - rewrite map_set_keys_in by exact Hin. exact Hin.
    - rewrite map_set_keys_new by exact Hnin. apply in_or_app. right. left. reflexivity. }
  split; [exact (proj1 Hkeys)|]. split; [|split].
  - intros k e Hin. apply map_set_In in Hin; [|exact Hnd]. destruct Hin as [[-> ->]|[Hk Hin]].
    + destruct Hentry as [H1 [H2 [H3 [H4 H5]]]].
      unfold games_on, results_on in *. rewrite games_of_day_snoc with (d := d) by exact Hd.
      rewrite String.eqb_refl, !filter_app, !length_app.
      subst entry'. cbn [da_date da_count da_wins da_losses da_draws].
      destruct (getResult g u) eqn:Er; cbn [filter]; rewrite ?Er; cbn [GameResult_eqb List.length];
        repeat split; first [exact H1 | lia].
    + destruct (Hent k e Hin) as [H1 [H2 [H3 [H4 H5]]]].
      unfold games_on, results_on in *. rewrite games_of_day_snoc with (d := d) by exact Hd.
      assert (Hdk : String.eqb d k = false) by (apply String.eqb_neq; congruence).
      rewrite Hdk, app_nil_r. repeat split; assumption.
  - intros g' Hg'. apply in_app_or in Hg' as [Hg'|[<-|[]]].
    + destruct (Hcov g' Hg') as [d' [Hd' Hin']]. exists d'. split; [exact Hd' | apply (proj2 Hkeys), Hin'].
    + exists d. split; [exact Hd | exact Hdin].
  - pose proof (sum_counts_map_set d entry' m) as Hs.
    assert (Hc : match map_get d m with Some e0 => da_count e0 | None => 0%nat end = da_count entry)
      by (subst entry; destruct (map_get d m); reflexivity).
    rewrite Hc in Hs. subst entry'. simpl in Hs. rewrite length_app. simpl. lia.
Qed.

Lemma heat_fold_inv (u : string) (gs seen : list ChessGame) (m m' : list (string * DayActivity)) :
  heat_inv u seen m -> fold_left (heat_step u) gs (Some m) = Some m' -> heat_inv u (seen ++ gs) m'.
Proof.
  revert seen m. induction gs as [|g gs IH]; intros seen m Hinv Hf; cbn [fold_left] in Hf.
  - injection Hf as <-. rewrite app_nil_r. exact Hinv.
  - destruct (day_of_game g) as [d|] eqn:Hd.
    + destruct (heat_inv_step u seen m g d Hinv Hd) as [m1 [Hs Hinv1]].
      rewrite Hs in Hf. replace (seen ++ g :: gs) with ((seen ++ [g]) ++ gs) by (rewrite <- app_assoc; reflexivity).
      exact (IH _ _ Hinv1 Hf).
    + assert (Hn : heat_step u (Some m) g = None) by (unfold heat_step; rewrite Hd; reflexivity).
      rewrite Hn, heat_fold_from_None in Hf. discriminate.
Qed.

Lemma heat_inv_nil (u : string) : heat_inv u [] [].
Proof.
  split; [constructor|]. split; [intros k e []|]. split; [intros g []|reflexivity].
Qed.

Section CmpSortFacts.

Context {A : Type} (cmp : A -> A -> comparison).

Lemma insert_cmp_perm (x : A) (l : list A) : Permutation (insert_cmp cmp x l) (x :: l).
Proof.
  induction l as [|y r IH]; simpl; [reflexivity|].
  destruct (cmp x y); [rewrite IH; apply perm_swap | reflexivity | rewrite IH; apply perm_swap].
Qed.

Lemma sort_cmp_perm (l : list A) : Permutation (sort_cmp cmp l) l.
Proof.
  unfold sort_cmp.
  enough (H : forall acc, Permutation (fold_left (fun acc x => insert_cmp cmp x acc) l acc) (l ++ acc))
    by (rewrite H, app_nil_r; reflexivity).
  induction l as [|x l IH]; intros acc; simpl; [reflexivity|].
  rewrite IH, insert_cmp_perm. symmetry. apply Permutation_middle.
Qed.

End CmpSortFacts.

Lemma string_compare_lt_trans (a b c : string) :
  String.compare a b = Lt -> String.compare b c = Lt -> String.compare a c = Lt.
Proof.
  revert b c. induction a as [|x a IH]; intros [|y b] [|z c]; cbn [String.compare]; try discriminate; auto.
  unfold Ascii.compare.
  destruct (N.compare_spec (N_of_ascii x) (N_of_ascii y)) as [Hxy|Hxy|Hxy]; try discriminate;
  destruct (N.compare_spec (N_of_ascii y) (N_of_ascii z)) as [Hyz|Hyz|Hyz]; try discriminate;
  intros H1 H2;
  destruct (N.compare_spec (N_of_ascii x) (N_of_ascii z)) as [Hxz|Hxz|Hxz]; try reflexivity; try lia.
  exact (IH b c H1 H2).
Qed.

Lemma string_compare_neq (a b : string) : a <> b -> String.compare a b <> Lt -> String.compare b a = Lt.
Proof.
  intros Hne Hnlt. rewrite String.compare_antisym in Hnlt.
  destruct (String.compare b a) eqn:E; simpl in Hnlt; try reflexivity.
  - apply String.compare_eq_iff in E. congruence.
  - congruence.
Qed.

Definition day_lt (a b : DayActivity) : Prop := localeCompare (da_date a) (da_date b) = Lt.

Lemma insert_day_sorted (x : DayActivity) (l : list DayActivity) :
  StronglySorted day_lt l -> (forall y, In y l -> da_date y <> da_date x) ->
  StronglySorted day_lt (insert_cmp (fun a b => localeCompare (da_date a) (da_date b)) x l).
Proof.
  induction l as [|y r IH]; intros Hs Hd; simpl.
  - repeat constructor.
  - apply StronglySorted_inv in Hs as [Hr Hy].
    destruct (localeCompare (da_date x) (da_date y)) eqn:Hxy.
    + exfalso. apply String.compare_eq_iff in Hxy. apply (Hd y); [left; reflexivity | symmetry; exact Hxy].
    + constructor; [constructor; assumption|]. constructor; [exact Hxy|].
      apply Forall_forall. intros z Hz. unfold day_lt, localeCompare in *.
      exact (string_compare_lt_trans _ _ _ Hxy (proj1 (Forall_forall _ _) Hy z Hz)).
    + assert (Hyx : day_lt y x).
      { unfold day_lt, localeCompare in *. apply string_compare_neq; [|congruence].
        intros Heq. apply (Hd y); [left; reflexivity | symmetry; exact Heq]. }
      constructor; [apply IH; [exact Hr | intros z Hz; apply Hd; right; exact Hz]|].
      apply Forall_forall. intros z Hz. apply (Permutation_in _ (insert_cmp_perm _ x r)) in Hz.
      destruct Hz as [<-|Hz]; [exact Hyx | exact (proj1 (Forall_forall _ _) Hy z Hz)].
Qed.

Lemma sort_days_sorted (l : list DayActivity) :
  NoDup (map da_date l) ->
  StronglySorted day_lt (sort_cmp (fun a b => localeCompare (da_date a) (da_date b)) l).
Proof.
  unfold sort_cmp.
  enough (H : forall acc, StronglySorted day_lt acc -> NoDup (map da_date (acc ++ l)) ->
            StronglySorted day_lt (fold_left (fun acc x => insert_cmp (fun a b => localeCompare (da_date a) (da_date b)) x acc) l acc))
    by (intros Hnd; apply H; [constructor | exact Hnd]).
  induction l as [|x l IH]; intros acc Hs Hnd; simpl; [exact Hs|].
  apply IH.
  - apply insert_day_sorted; [exact Hs|].
    intros y Hy Heq. rewrite map_app in Hnd. cbn [map] in Hnd.
    apply NoDup_remove_2 in Hnd. apply Hnd. apply in_or_app. left. rewrite <- Heq. apply in_map, Hy.
  - eapply Permutation_NoDup; [|exact Hnd].
    apply Permutation_map. rewrite insert_cmp_perm. simpl. apply Permutation_sym, Permutation_middle.
Qed.

Lemma heat_dates (m : list (string * DayActivity)) :
  (forall k e, In (k, e) m -> da_date e = k) -> map da_date (map snd m) = map fst m.
Proof.
  induction m as [|[k e] r IH]; intros H; simpl; [reflexivity|].
  rewrite (H k e (or_introl eq_refl)), IH; [reflexivity|]. intros k' e' Hin. apply (H k' e'). right. exact Hin.
Qed.

Lemma sum_counts_perm (l l' : list DayActivity) : Permutation l l' -> sum_counts l = sum_counts l'.
Proof. induction 1; simpl; lia. Qed.

Lemma computeActivityHeatmap_inv (games : list ChessGame) (u : string) (ds : list DayActivity) :
  computeActivityHeatmap games u = Some ds ->
  exists m, heat_inv u games m /\ ds = sort_cmp (fun a b => localeCompare (da_date a) (da_date b)) (map snd m).
Proof.
  unfold computeActivityHeatmap. destruct (fold_left (heat_step u) games (Some [])) as [m|] eqn:Hf; [|discriminate].
  intros [= <-]. exists m. split; [|reflexivity].
  exact (heat_fold_inv u games [] [] m (heat_inv_nil u) Hf).
Qed.



Lemma results_on_split (games : list ChessGame) (u d : string) :
  games_on games d = (results_on games u d Win + results_on games u d Loss + results_on games u d Draw)%nat.
Proof.
  unfold games_on, results_on. induction (games_of_day games d) as [|g r IH]; [reflexivity|].
  simpl. destruct (getResult g u); simpl; lia.
Qed.

(** Each day of [computeActivityHeatmap] counts the games that ended on
    that day (UTC) and splits them into wins, losses and draws of the
    subject; every game lands on the day of its end time, and the counts
    of all days add up to the number of games. *)
Theorem computeActivityHeatmap_counts (games : list ChessGame) (u : string) (ds : list DayActivity) :
  computeActivityHeatmap games u = Some ds ->
  (forall a, In a ds ->
     da_count a = games_on games (da_date a) /\ da_wins a = results_on games u (da_date a) Win /\
     da_losses a = results_on games u (da_date a) Loss /\ da_draws a = results_on games u (da_date a) Draw /\
     da_count a = (da_wins a + da_losses a + da_draws a)%nat) /\
  (forall g, In g games -> exists a, In a ds /\ day_of_game g = Some (da_date a)) /\
  sum_counts ds = List.length games.
Proof.
  intros H. destruct (computeActivityHeatmap_inv games u ds H) as [m [[Hnd [Hent [Hcov Hsum]]] ->]].
  split; [|split].
  - intros a Ha. apply (Permutation_in _ (sort_cmp_perm _ _)) in Ha.
    apply in_map_iff in Ha as [[k e] [<- Hin]]. simpl.
    destruct (Hent k e Hin) as [-> [H2 [H3 [H4 H5]]]].
    repeat split; try assumption. rewrite H2, H3, H4, H5. apply results_on_split.
  - intros g Hg. destruct (Hcov g Hg) as [d [Hd Hin]].
    apply in_map_iff in Hin as [[k e] [Hk Hin]]. simpl in Hk. subst k.
    exists e. split.
    + apply (Permutation_in _ (Permutation_sym (sort_cmp_perm _ _))). apply in_map_iff.
      exists (d, e). split; [reflexivity | exact Hin].
    + rewrite (proj1 (Hent d e Hin)). exact Hd.
  - rewrite (sum_counts_perm _ _ (sort_cmp_perm _ _)). exact Hsum.
Qed.

Lemma computeActivityHeatmap_counts_witness :
  computeActivityHeatmap [Inputs.win_game; Inputs.loss_game] "alice"
  = Some [{| da_date := "2023-11-14"; da_count := 2; da_wins := 1; da_losses := 1; da_draws := 0 |}] /\
  sum_counts [{| da_date := "2023-11-14"; da_count := 2; da_wins := 1; da_losses := 1; da_draws := 0 |}] = 2%nat.
Proof.
  split; [vm_compute; reflexivity|].
  exact (proj2 (proj2 (computeActivityHeatmap_counts [Inputs.win_game; Inputs.loss_game] "alice" _
                         ltac:(vm_compute; reflexivity)))).
Defined.

(* ------------------------------------------------------------------ *)
(** ** Opponents and their countries *)

Lemma lower_ascii_idem (c : ascii) : lower_ascii (lower_ascii c) = lower_ascii c.
Proof. destruct c as [[] [] [] [] [] [] [] []]; reflexivity. Qed.

Lemma toLowerCase_idem (s : string) : toLowerCase (toLowerCase s) = toLowerCase s.
Proof.
  unfold toLowerCase. rewrite list_ascii_of_string_of_list_ascii, map_map.
  f_equal. apply map_ext. apply lower_ascii_idem.
Qed.

Lemma set_add_fold (l acc : list string) :
  NoDup acc ->
  NoDup (fold_left set_add l acc) /\
  (forall x, In x (fold_left set_add l acc) <-> In x acc \/ In x l).
Proof.
  revert acc. induction l as [|y l IH]; intros acc Hnd; cbn [fold_left].
  - split; [exact Hnd|]. intros x. simpl. tauto.
  - assert (Hstep : NoDup (set_add acc y) /\ forall x, In x (set_add acc y) <-> In x acc \/ x = y).
    { unfold set_add. destruct (existsb (String.eqb y) acc) eqn:E.
      - apply existsb_exists in E as [z [Hz Hyz]]. apply String.eqb_eq in Hyz. subst z.
        split; [exact Hnd|]. intros x. split; [tauto|]. intros [H| ->]; assumption.
      - split.
        + apply NoDup_app; [exact Hnd | repeat constructor; simpl; tauto|].
          intros x Hx [<-|[]]. assert (Hex : existsb (String.eqb y) acc = true)
            by (apply existsb_exists; exists y; split; [exact Hx | apply String.eqb_refl]).
          congruence.
        + intros x. rewrite in_app_iff. simpl. split; [intros [H|[H|[]]]; auto | intros [H|H]; auto]. }
    destruct Hstep as [Hnd' Hin']. destruct (IH _ Hnd') as [H1 H2]. split; [exact H1|].
    intros x. rewrite H2, Hin'. simpl. split.
    + intros [[H|H]|H]; subst; auto.
    + intros [H|[H|H]]; subst; auto.
Qed.

(** [extractOpponentUsernames] lists each opponent of the subject once:
    the names have no duplicates, are exactly the lower-cased names of the
    other side of the games, and are already in lower case. *)
Theorem extractOpponentUsernames_set (games : list ChessGame) (u : string) :
  NoDup (extractOpponentUsernames games u) /\
  (forall x, In x (extractOpponentUsernames games u) <-> exists g, In g games /\ opponent_of g u = x) /\
  (forall x, In x (extractOpponentUsernames games u) -> toLowerCase x = x).
Proof.
  assert (Hf : extractOpponentUsernames games u = fold_left set_add (map (fun g => opponent_of g u) games) []).
  { unfold extractOpponentUsernames. generalize (@nil string).
    induction games as [|g gs IH]; intros acc; [reflexivity|]. apply IH. }
  destruct (set_add_fold (map (fun g => opponent_of g u) games) [] (NoDup_nil _)) as [Hnd Hin].
  rewrite Hf. split; [exact Hnd|].
  assert (Hmem : forall x, In x (fold_left set_add (map (fun g => opponent_of g u) games) []) <->
                           exists g, In g games /\ opponent_of g u = x).
  { intros x. rewrite Hin. rewrite in_map_iff. simpl. split.
    - intros [[]|[g [Hg Hin']]]. exists g. split; assumption.
    - intros [g [Hg Hx]]. right. exists g. split; assumption. }
  split; [exact Hmem|].
  intros x Hx. apply Hmem in Hx as [g [_ <-]]. unfold opponent_of. apply toLowerCase_idem.
Qed.

Lemma map_get_set {V} (o k : string) (v : V) (m : list (string * V)) :
  map_get o (map_set k v m) = if String.eqb o k then Some v else map_get o m.
Proof.
  induction m as [|[k' v'] r IH]; cbn [map_set map_get].
  - destruct (String.eqb o k); reflexivity.
  - destruct (String.eqb_spec k k') as [->|Hk]; cbn [map_get].
    + destruct (String.eqb o k'); reflexivity.
    + rewrite IH. destruct (String.eqb_spec o k') as [->|Ho]; [|reflexivity].
      apply String.eqb_neq in Hk. rewrite String.eqb_sym, Hk. reflexivity.
Qed.

Lemma load_step_get (fetched : string -> option string) (acc : list (string * string)) (p o : string) :
  map_get o (match fetched p with
             | Some code => if String.eqb code EmptyString then acc else set_prop acc p code
             | None => acc
             end)
  = if String.eqb o p && negb (String.eqb o "__proto__") then
      match fetched o with
      | Some c => if String.eqb c EmptyString then map_get o acc else Some c
      | None => map_get o acc
      end
    else map_get o acc.
Proof.
  destruct (String.eqb_spec o p) as [<-|Hop]; cbn [andb].
  - destruct (fetched o) as [c|]; [|destruct (String.eqb o "__proto__"); reflexivity].
    destruct (String.eqb c EmptyString); [destruct (String.eqb o "__proto__"); reflexivity|].
    unfold set_prop. destruct (String.eqb o "__proto__"); cbn [negb]; [reflexivity|].
    rewrite map_get_set, String.eqb_refl. reflexivity.
  - destruct (fetched p) as [c|]; [|reflexivity].
    destruct (String.eqb c EmptyString); [reflexivity|].
    unfold set_prop. destruct (String.eqb p "__proto__"); [reflexivity|].
    rewrite map_get_set. apply String.eqb_neq in Hop. rewrite Hop. reflexivity.
Qed.

Lemma load_fold_get (opps : list string) (fetched : string -> option string)
  (acc : list (string * string)) (o : string) :
  map_get o (fold_left (fun result opp =>
               match fetched opp with
               | Some code => if String.eqb code EmptyString then result else set_prop result opp code
               | None => result
               end) opps acc)
  = if existsb (String.eqb o) opps && negb (String.eqb o "__proto__") then
      match fetched o with
      | Some c => if String.eqb c EmptyString then map_get o acc else Some c
      | None => map_get o acc
      end
    else map_get o acc.
Proof.
  revert acc. induction opps as [|p ps IH]; intros acc; cbn [fold_left existsb]; [reflexivity|].
  rewrite IH, load_step_get.
  destruct (String.eqb o p); destruct (existsb (String.eqb o) ps); destruct (String.eqb o "__proto__");
    cbn [orb andb negb]; try reflexivity;
    destruct (fetched o) as [c|]; try reflexivity; destruct (String.eqb c EmptyString); reflexivity.
Qed.

(** The object built by [useLoadOpponentCountries] answers, for a name
    [o], the code fetched for [o] when [o] is one of the opponents and the
    code is non-empty, except for the name [__proto__], whose assignment
    the [__proto__] setter swallows; every other name reads what a fresh
    object inherits ([undefined], or a method of [Object.prototype]). *)
Theorem load_countries_get (opps : list string) (fetched : string -> option string) (o : string) :
  get_prop (load_countries opps fetched) o =
  match fetched o with
  | Some c =>
      if existsb (String.eqb o) opps && negb (String.eqb o "__proto__") && negb (String.eqb c EmptyString)
      then JsString c else get_prop [] o
  | None => get_prop [] o
  end.
Proof.
  unfold get_prop at 1. unfold load_countries. rewrite load_fold_get. cbn [map_get].
  destruct (existsb (String.eqb o) opps && negb (String.eqb o "__proto__")); cbn [andb];
    destruct (fetched o) as [c|]; try reflexivity.
  destruct (String.eqb c EmptyString); reflexivity.
Qed.

Lemma JsValue_eqb_eq (a b : JsValue) : JsValue_eqb a b = true <-> a = b.
Proof.
  destruct a, b; cbn [JsValue_eqb]; try (split; congruence);
    rewrite String.eqb_eq; split; congruence.
Qed.

Lemma JsValue_eqb_refl (a : JsValue) : JsValue_eqb a a = true.
Proof. apply JsValue_eqb_eq. reflexivity. Qed.

Lemma vmap_get_set {V} (o k : JsValue) (v : V) (m : list (JsValue * V)) :
  vmap_get o (vmap_set k v m) = if JsValue_eqb o k then Some v else vmap_get o m.
Proof.
  induction m as [|[k' v'] r IH]; cbn [vmap_set vmap_get].
  - destruct (JsValue_eqb o k); reflexivity.
  - destruct (JsValue_eqb k k') eqn:Hk; cbn [vmap_get].
    + apply JsValue_eqb_eq in Hk. subst k'. destruct (JsValue_eqb o k); reflexivity.
    + rewrite IH. destruct (JsValue_eqb o k') eqn:Ho; [|reflexivity].
      apply JsValue_eqb_eq in Ho. subst k'.
      destruct (JsValue_eqb o k) eqn:Hok; [|reflexivity].
      apply JsValue_eqb_eq in Hok. subst. rewrite JsValue_eqb_refl in Hk. discriminate.
Qed.

Lemma vmap_get_In {V} (k : JsValue) (v : V) (m : list (JsValue * V)) :
  vmap_get k m = Some v -> In (k, v) m.
Proof.
  induction m as [|[k' v'] r IH]; cbn [vmap_get]; [discriminate|].
  destruct (JsValue_eqb k k') eqn:Hk.
  - apply JsValue_eqb_eq in Hk. subst. intros [= <-]. left. reflexivity.
  - intros H. right. apply IH, H.
Qed.

Lemma vmap_In_get {V} (k : JsValue) (v : V) (m : list (JsValue * V)) :
  NoDup (map fst m) -> In (k, v) m -> vmap_get k m = Some v.
Proof.
  induction m as [|[k' v'] r IH]; cbn [vmap_get map fst]; [intros _ []|].
  intros Hnd Hin. inversion Hnd as [|? ? Hk' Hnd']. subst.
  destruct Hin as [[= -> ->]|Hin].
  - rewrite JsValue_eqb_refl. reflexivity.
  - destruct (JsValue_eqb k k') eqn:Hk.
    + apply JsValue_eqb_eq in Hk. subst. exfalso. apply Hk'. apply (in_map fst _ _ Hin).
    + apply IH; assumption.
Qed.

Lemma vmap_set_keys {V} (k : JsValue) (v : V) (m : list (JsValue * V)) :
  NoDup (map fst m) -> NoDup (map fst (vmap_set k v m)) /\
  (forall x, In x (map fst (vmap_set k v m)) <-> In x (map fst m) \/ x = k).
Proof.
  induction m as [|[k' v'] r IH]; cbn [vmap_set map fst]; intros Hnd.
  - split; [repeat constructor; simpl; tauto|]. intros x. simpl. intuition.
  - inversion Hnd as [|? ? Hk' Hnd']. subst.
    destruct (JsValue_eqb k k') eqn:Hk; cbn [map fst].
    + apply JsValue_eqb_eq in Hk. subst. split; [exact Hnd|]. intros x. simpl. intuition.
    + destruct (IH Hnd') as [H1 H2]. split.
      * constructor; [|exact H1]. rewrite H2. intros [H|H]; [exact (Hk' H)|].
        subst. rewrite JsValue_eqb_refl in Hk. discriminate.
      * intros x. simpl. rewrite H2. tauto.
Qed.

Lemma games_from_snoc (gs : list ChessGame) (g : ChessGame) (u : string) (own : list (string * string)) (k : JsValue) :
  games_from (gs ++ [g]) u own k =
  (games_from gs u own k + if JsValue_eqb (get_prop own (opponent_of g u)) k then 1 else 0)%nat.
Proof.
  unfold games_from. rewrite filter_app, length_app. cbn [filter].
  destruct (JsValue_eqb (get_prop own (opponent_of g u)) k); reflexivity.
Qed.

Lemma country_fold_inv (u : string) (own : list (string * string)) (gs seen : list ChessGame)
  (t : list (JsValue * nat)) :
  NoDup (map fst t) ->
  (forall k, vmap_get k t = if truthy k && (0 <? games_from seen u own k)%nat
                            then Some (games_from seen u own k) else None) ->
  NoDup (map fst (fold_left (country_step u own) gs t)) /\
  (forall k, vmap_get k (fold_left (country_step u own) gs t)
             = if truthy k && (0 <? games_from (seen ++ gs) u own k)%nat
               then Some (games_from (seen ++ gs) u own k) else None).
Proof.
  revert seen t. induction gs as [|g gs IH]; intros seen t Hnd Hget; cbn [fold_left].
  - rewrite app_nil_r. split; assumption.
  - replace (seen ++ g :: gs) with ((seen ++ [g]) ++ gs) by (rewrite <- app_assoc; reflexivity).
    apply IH.
    + unfold country_step. destruct (truthy _); [apply (vmap_set_keys _ _ _ Hnd)|exact Hnd].
    + intros k. rewrite games_from_snoc. unfold country_step.
      set (c := get_prop own (opponent_of g u)).
      destruct (JsValue_eqb c k) eqn:Hck.
      * apply JsValue_eqb_eq in Hck. subst k.
        destruct (truthy c) eqn:Ht; cbn [andb].
        -- rewrite vmap_get_set, JsValue_eqb_refl, Hget, Ht. cbn [andb].
           replace (games_from seen u own c + 1)%nat with (S (games_from seen u own c)) by lia.
           destruct (Nat.ltb_spec 0 (games_from seen u own c)) as [_|Hle]; [reflexivity|].
           replace (games_from seen u own c) with 0%nat by lia. reflexivity.
        -- rewrite Hget, Ht. reflexivity.
      * destruct (truthy c).
        -- rewrite vmap_get_set. destruct (JsValue_eqb k c) eqn:Hkc.
           ++ apply JsValue_eqb_eq in Hkc. subst k. rewrite JsValue_eqb_refl in Hck. discriminate.
           ++ rewrite Hget, Nat.add_0_r. reflexivity.
        -- rewrite Hget, Nat.add_0_r. reflexivity.
Qed.

Lemma computeOpponentCountryStats_tally (games : list ChessGame) (u : string) (own : list (string * string)) :
  NoDup (map fst (fold_left (country_step u own) games [])) /\
  (forall k, vmap_get k (fold_left (country_step u own) games [])
             = if truthy k && (0 <? games_from games u own k)%nat then Some (games_from games u own k) else None).
Proof.
  apply (country_fold_inv u own games [] []); [constructor|].
  intros k. unfold games_from. cbn [filter List.length Nat.ltb Nat.leb]. rewrite andb_false_r. reflexivity.
Qed.

(** [computeOpponentCountryStats] returns one entry per distinct truthy
    value read from the country map for the opponents, counting the games
    whose opponent reads that value; every game whose opponent reads a
    truthy value is counted, and the entries are in decreasing order of
    count. *)
Theorem computeOpponentCountryStats_entries (games : list ChessGame) (u : string) (own : list (string * string)) :
  let cs := computeOpponentCountryStats games u own in
  NoDup (map cc_country cs) /\
  (forall c, In c cs -> truthy (cc_country c) = true /\ cc_count c = games_from games u own (cc_country c)) /\
  (forall g, In g games -> truthy (get_prop own (opponent_of g u)) = true ->
     exists c, In c cs /\ cc_country c = get_prop own (opponent_of g u)) /\
  StronglySorted (fun a b => (cc_count b <= cc_count a)%nat) cs.
Proof.
  cbv zeta. unfold computeOpponentCountryStats.
  destruct (computeOpponentCountryStats_tally games u own) as [Hnd Hget].
  set (t := fold_left (country_step u own) games []) in *.
  set (mk := fun kv : JsValue * nat => {| cc_country := fst kv; cc_count := snd kv |}).
  pose proof (sort_desc_perm (fun c => Z.of_nat (cc_count c)) (map mk t)) as Hp.
  assert (Hmk : map cc_country (map mk t) = map fst t) by (rewrite map_map; reflexivity).
  split; [|split; [|split]].
  - eapply Permutation_NoDup; [apply Permutation_map, Permutation_sym, Hp|]. rewrite Hmk. exact Hnd.
  - intros c Hc. apply (Permutation_in _ Hp) in Hc. apply in_map_iff in Hc as [[k n] [<- Hin]].
    cbn [mk cc_country cc_count]. pose proof (vmap_In_get k n t Hnd Hin) as Hk. rewrite Hget in Hk.
    destruct (truthy k && (0 <? games_from games u own k)%nat) eqn:E; [|discriminate].
    apply andb_true_iff in E as [E _]. injection Hk as <-. split; [exact E | reflexivity].
  - intros g Hg Ht. set (c := get_prop own (opponent_of g u)) in *.
    assert (Hpos : (0 < games_from games u own c)%nat).
    { unfold games_from. destruct (filter _ games) eqn:Hf; [|simpl; lia].
      assert (Hin : In g (filter (fun g' => JsValue_eqb (get_prop own (opponent_of g' u)) c) games))
        by (apply filter_In; split; [exact Hg | apply JsValue_eqb_refl]).
      rewrite Hf in Hin. contradiction. }
    pose proof (Hget c) as Hc. rewrite Ht in Hc. apply Nat.ltb_lt in Hpos. rewrite Hpos in Hc.
    cbn [andb] in Hc. apply vmap_get_In in Hc.
    exists (mk (c, games_from games u own c)). split; [|reflexivity].
    apply (Permutation_in _ (Permutation_sym Hp)). apply in_map, Hc.
  - eapply StronglySorted_weaken; [|apply sort_desc_sorted]. intros a b H. unfold desc in H. lia.
Qed.

(** An opponent named [__proto__] is tallied by [computeOpponentCountryStats]
    under a country that is not a string: with the map built by
    [useLoadOpponentCountries], [countryMap["__proto__"]] is
    [Object.prototype], whatever was fetched for that name, so the stats
    hold an entry for [Object.prototype] counting those games. *)
Theorem computeOpponentCountryStats_proto (games : list ChessGame) (u : string) (opps : list string)
  (fetched : string -> option string) (g : ChessGame) :
  In g games -> opponent_of g u = "__proto__"%string ->
  exists c, In c (computeOpponentCountryStats games u (load_countries opps fetched)) /\
    cc_country c = JsObjectPrototype /\ (0 < cc_count c)%nat.
Proof.
  intros Hg Ho.
  assert (Hproto : get_prop (load_countries opps fetched) (opponent_of g u) = JsObjectPrototype).
  { rewrite load_countries_get, Ho. destruct (fetched "__proto__"%string) as [c|]; [|reflexivity].
    cbn [String.eqb Ascii.eqb Bool.eqb andb negb]. rewrite andb_false_r. reflexivity. }
  destruct (computeOpponentCountryStats_entries games u (load_countries opps fetched)) as [_ [Hc [Hcov _]]].
  destruct (Hcov g Hg) as [c [Hin Hcc]]; [rewrite Hproto; reflexivity|].
  exists c. split; [exact Hin|]. rewrite Hproto in Hcc. split; [exact Hcc|].
  destruct (Hc c Hin) as [_ ->]. unfold games_from.
  destruct (filter _ games) eqn:Hf; [|simpl; lia].
  assert (Hin' : In g (filter (fun g' => JsValue_eqb (get_prop (load_countries opps fetched) (opponent_of g' u)) (cc_country c)) games))
    by (apply filter_In; split; [exact Hg | rewrite Hproto, Hcc; reflexivity]).
  rewrite Hf in Hin'. contradiction.
Qed.

Lemma computeOpponentCountryStats_proto_witness :
  In Inputs.proto_game [Inputs.proto_game] /\ opponent_of Inputs.proto_game "alice" = "__proto__"%string /\
  exists c, In c (computeOpponentCountryStats [Inputs.proto_game] "alice"
                    (load_countries ["__proto__"%string] (fun _ => Some "US"%string))) /\
    cc_country c = JsObjectPrototype /\ (0 < cc_count c)%nat.
Proof.
  split; [left; reflexivity|]. split; [vm_compute; reflexivity|].
  apply (computeOpponentCountryStats_proto [Inputs.proto_game] "alice" ["__proto__"%string]
           (fun _ => Some "US"%string) Inputs.proto_game); [left; reflexivity | vm_compute; reflexivity].
Defined.

(* ------------------------------------------------------------------ *)
(** ** Castling counts *)

(** Each count of [computeCastlingStats] is the number of games that
    [detectCastling] puts in that class, so the three counts add up to
    the number of games. *)
Theorem computeCastlingStats_counts (games : list ChessGame) (u : string) :
  c_kingside (counts (computeCastlingStats games u)) = List.length (filter (castled_as Kingside) games) /\
  c_queenside (counts (computeCastlingStats games u)) = List.length (filter (castled_as Queenside) games) /\
  c_none (counts (computeCastlingStats games u)) = List.length (filter (castled_as NoCastle) games) /\
  (c_kingside (counts (computeCastlingStats games u)) + c_queenside (counts (computeCastlingStats games u))
   + c_none (counts (computeCastlingStats games u)) = List.length games)%nat.
Proof.
  assert (Hc : counts (computeCastlingStats games u) = fold_left (fun o g => bump (detectCastling (pgn g)) o) games pc_zero).
  { unfold computeCastlingStats. rewrite <- (castling_fold_counts u games pc_zero pc_zero).
    destruct (fold_left (castling_step u) games (pc_zero, pc_zero)). reflexivity. }
  rewrite Hc.
  enough (H : forall o, let r := fold_left (fun o g => bump (detectCastling (pgn g)) o) games o in
            c_kingside r = (c_kingside o + List.length (filter (castled_as Kingside) games))%nat /\
            c_queenside r = (c_queenside o + List.length (filter (castled_as Queenside) games))%nat /\
            c_none r = (c_none o + List.length (filter (castled_as NoCastle) games))%nat).
  { destruct (H pc_zero) as [H1 [H2 H3]]. cbn [c_kingside c_queenside c_none pc_zero] in *.
    rewrite H1, H2, H3. split; [reflexivity|]. split; [reflexivity|]. split; [reflexivity|].
    clear. induction games as [|g gs IH]; [reflexivity|]. cbn [filter List.length].
    unfold castled_as in *. destruct (detectCastling (pgn g)); cbn [Castling_eqb List.length]; lia. }
  clear Hc. induction games as [|g gs IH]; intros o; cbn [fold_left filter List.length]; [lia|].
  destruct (IH (bump (detectCastling (pgn g)) o)) as [H1 [H2 H3]].
  rewrite H1, H2, H3. unfold castled_as in *.
  destruct (detectCastling (pgn g)); cbn [Castling_eqb bump c_kingside c_queenside c_none List.length]; lia.
Qed.

(* ------------------------------------------------------------------ *)
(** ** Calendar tables *)

Lemma nth_error_skipn_cons {A} (l : list A) (i : nat) (b : A) :
  nth_error l i = Some b -> skipn i l = b :: skipn (S i) l.
Proof.
  revert i. induction l as [|x r IH]; intros [|i] H; cbn in H |- *; try discriminate.
  - injection H as ->. reflexivity.
  - apply IH, H.
Qed.

Lemma bump_bucket_sums (i : nat) (w : bool) (bs bs' : list Bucket) :
  bump_bucket (Some i) w bs = Some bs' ->
  List.length bs' = List.length bs /\
  list_sum (map b_games bs') = S (list_sum (map b_games bs)) /\
  list_sum (map b_wins bs') = (list_sum (map b_wins bs) + if w then 1 else 0)%nat.
Proof.
  unfold bump_bucket. destruct (nth_error bs i) as [b|] eqn:E; [|discriminate].
  intros H.
  assert (Hb : bs' = firstn i bs ++ {| b_games := S (b_games b); b_wins := if w then S (b_wins b) else b_wins b |}
                     :: skipn (S i) bs) by congruence.
  subst bs'. clear H. pose proof (nth_error_skipn_cons bs i b E) as Hs.
  pose proof (firstn_skipn i bs) as Hfs. rewrite Hs in Hfs.
  set (F := firstn i bs) in *. set (R := skipn (S i) bs) in *. clearbody F R.
  rewrite <- Hfs.
  rewrite !length_app, !map_app, !list_sum_app. cbn [map list_sum List.length b_games b_wins].
  cbn [list_sum fold_right]. destruct w; repeat split; lia.
Qed.

Lemma bump_bucket_None (i : option nat) (w : bool) (bs : list Bucket) :
  bump_bucket i w bs = None <-> bad_index i (List.length bs).
Proof.
  unfold bump_bucket, bad_index. destruct i as [i|]; [|tauto].
  destruct (nth_error bs i) eqn:E.
  - split; [discriminate|]. intros H. apply nth_error_None in H. congruence.
  - apply nth_error_None in E. split; [intros _; exact E | reflexivity].
Qed.

Lemma calendar_fold_from_None (hour_of day_of : Z -> option nat) (u : string) (games : list ChessGame) :
  fold_left (calendar_step hour_of day_of u) games None = None.
Proof. induction games as [|g gs IH]; [reflexivity | exact IH]. Qed.

Lemma calendar_fold_sums (hour_of day_of : Z -> option nat) (u : string) (games : list ChessGame) :
  forall hs ds hs' ds',
  fold_left (calendar_step hour_of day_of u) games (Some (hs, ds)) = Some (hs', ds') ->
  List.length hs' = List.length hs /\ List.length ds' = List.length ds /\
  list_sum (map b_games hs') = (list_sum (map b_games hs) + List.length games)%nat /\
  list_sum (map b_games ds') = (list_sum (map b_games ds) + List.length games)%nat /\
  list_sum (map b_wins hs') = (list_sum (map b_wins hs) + List.length (filter (won u) games))%nat /\
  list_sum (map b_wins ds') = (list_sum (map b_wins ds) + List.length (filter (won u) games))%nat.
Proof.
  induction games as [|g gs IH]; intros hs ds hs' ds' H; cbn [fold_left] in H.
  - injection H as <- <-. cbn [List.length filter]. repeat split; lia.
  - destruct (calendar_step hour_of day_of u (Some (hs, ds)) g) as [[hs1 ds1]|] eqn:Hs;
      [|rewrite calendar_fold_from_None in H; discriminate].
    destruct (IH _ _ _ _ H) as (L1 & L2 & S1 & S2 & W1 & W2).
    unfold calendar_step in Hs. cbv zeta in Hs.
    destruct (hour_of (end_time g)) as [h|]; [|discriminate].
    destruct (bump_bucket (Some h) _ hs) as [hs2|] eqn:B1; [|discriminate].
    destruct (day_of (end_time g)) as [d|]; [|discriminate].
    destruct (bump_bucket (Some d) _ ds) as [ds2|] eqn:B2; [|discriminate].
    injection Hs as <- <-.
    apply bump_bucket_sums in B1 as (L3 & S3 & W3). apply bump_bucket_sums in B2 as (L4 & S4 & W4).
    cbn [filter List.length]. unfold won in *.
    destruct (GameResult_eqb (getResult g u) Win); cbn [List.length] in *; repeat split; lia.
Qed.

Lemma entries_fields (bs : list Bucket) :
  map ce_key (entries bs) = seq 0 (List.length bs) /\
  map ce_games (entries bs) = map b_games bs /\ map ce_wins (entries bs) = map b_wins bs.
Proof.
  unfold entries. rewrite !map_map. cbn [ce_key ce_games ce_wins].
  generalize 0%nat as n. induction bs as [|b r IH]; intros n; [repeat split|].
  cbn [List.length seq combine map fst snd]. destruct (IH (S n)) as (H1 & H2 & H3).
  rewrite H1, H2, H3. repeat split.
Qed.

Lemma repeat_bucket0_sums (n : nat) :
  list_sum (map b_games (repeat bucket0 n)) = 0%nat /\ list_sum (map b_wins (repeat bucket0 n)) = 0%nat.
Proof. induction n as [|n IH]; [split; reflexivity | cbn; exact IH]. Qed.

(** When [computeCalendarStats] returns, its hour table has the keys 0 to
    23 and its weekday table the keys 0 to 6, in order; each table counts
    every game once, and its wins add up to the games won by the subject. *)
Theorem computeCalendarStats_tables (hour_of day_of : Z -> option nat) (games : list ChessGame) (u : string)
  (cs : CalendarStats) :
  computeCalendarStats hour_of day_of games u = Some cs ->
  map ce_key (hourOfDay cs) = seq 0 24 /\ map ce_key (dayOfWeek cs) = seq 0 7 /\
  list_sum (map ce_games (hourOfDay cs)) = List.length games /\
  list_sum (map ce_games (dayOfWeek cs)) = List.length games /\
  list_sum (map ce_wins (hourOfDay cs)) = List.length (filter (won u) games) /\
  list_sum (map ce_wins (dayOfWeek cs)) = List.length (filter (won u) games).
Proof.
  unfold computeCalendarStats.
  destruct (fold_left (calendar_step hour_of day_of u) games (Some (repeat bucket0 24, repeat bucket0 7)))
    as [[hs ds]|] eqn:Hf; [|discriminate].
  intros [= <-]. cbn [hourOfDay dayOfWeek].
  destruct (calendar_fold_sums hour_of day_of u games _ _ _ _ Hf) as (L1 & L2 & S1 & S2 & W1 & W2).
  rewrite repeat_length in L1, L2.
  destruct (repeat_bucket0_sums 24) as [Z1 Z2]. destruct (repeat_bucket0_sums 7) as [Z3 Z4].
  destruct (entries_fields hs) as (K1 & G1 & V1). destruct (entries_fields ds) as (K2 & G2 & V2).
  rewrite K1, K2, G1, G2, V1, V2, L1, L2, S1, S2, W1, W2, Z1, Z2, Z3, Z4.
  repeat split.
Qed.

Lemma computeCalendarStats_tables_witness :
  exists cs, computeCalendarStats (fun _ => Some 21%nat) (fun _ => Some 2%nat) [Inputs.win_game] "alice" = Some cs /\
    list_sum (map ce_games (hourOfDay cs)) = 1%nat /\ list_sum (map ce_wins (dayOfWeek cs)) = 1%nat.
Proof.
  destruct (computeCalendarStats (fun _ => Some 21%nat) (fun _ => Some 2%nat) [Inputs.win_game] "alice")
    as [cs|] eqn:E.
  - exists cs. split; [reflexivity|].
    destruct (computeCalendarStats_tables (fun _ => Some 21%nat) (fun _ => Some 2%nat) [Inputs.win_game] "alice" cs E)
      as (_ & _ & H1 & _ & _ & H2).
    rewrite H1, H2. split; [reflexivity | vm_compute; reflexivity].
  - vm_compute in E. discriminate.
Defined.

Lemma calendar_step_None (hour_of day_of : Z -> option nat) (u : string) (hs ds : list Bucket) (g : ChessGame) :
  calendar_step hour_of day_of u (Some (hs, ds)) g = None <->
  bad_index (hour_of (end_time g)) (List.length hs) \/ bad_index (day_of (end_time g)) (List.length ds).
Proof.
  unfold calendar_step. cbv zeta.
  rewrite <- (bump_bucket_None (hour_of (end_time g)) (GameResult_eqb (getResult g u) Win) hs).
  rewrite <- (bump_bucket_None (day_of (end_time g)) (GameResult_eqb (getResult g u) Win) ds).
  destruct (bump_bucket (hour_of (end_time g)) _ hs); [|tauto].
  destruct (bump_bucket (day_of (end_time g)) _ ds); split; try discriminate; try tauto.
  intros [H|H]; discriminate.
Qed.

Lemma calendar_step_Some_lengths (hour_of day_of : Z -> option nat) (u : string) (hs ds hs' ds' : list Bucket)
  (g : ChessGame) :
  calendar_step hour_of day_of u (Some (hs, ds)) g = Some (hs', ds') ->
  List.length hs' = List.length hs /\ List.length ds' = List.length ds.
Proof.
  intros H. pose proof (calendar_fold_sums hour_of day_of u [g] hs ds hs' ds' H) as (L1 & L2 & _). auto.
Qed.

Lemma calendar_fold_None (hour_of day_of : Z -> option nat) (u : string) (games : list ChessGame) :
  forall hs ds, List.length hs = 24%nat -> List.length ds = 7%nat ->
  fold_left (calendar_step hour_of day_of u) games (Some (hs, ds)) = None <->
  Exists (fun g => bad_index (hour_of (end_time g)) 24 \/ bad_index (day_of (end_time g)) 7) games.
Proof.
  induction games as [|g gs IH]; intros hs ds Lh Ld; cbn [fold_left].
  - split; [discriminate | intros H; inversion H].
  - rewrite Exists_cons.
    destruct (calendar_step hour_of day_of u (Some (hs, ds)) g) as [[hs' ds']|] eqn:Hs.
    + destruct (calendar_step_Some_lengths _ _ _ _ _ _ _ _ Hs) as [L1 L2].
      rewrite (IH hs' ds') by lia.
      assert (~ (bad_index (hour_of (end_time g)) 24 \/ bad_index (day_of (end_time g)) 7)).
      { rewrite <- Lh, <- Ld, <- (calendar_step_None hour_of day_of u hs ds g). congruence. }
      tauto.
    + rewrite calendar_fold_from_None. apply calendar_step_None in Hs. rewrite Lh, Ld in Hs. tauto.
Qed.

(** [computeCalendarStats] throws (it reads the entry of an hour or a
    weekday that is not in its tables) exactly when the hour of some game
    is not one of 0 to 23 or its weekday not one of 0 to 6, for instance
    for an invalid date. *)
Theorem computeCalendarStats_throws (hour_of day_of : Z -> option nat) (games : list ChessGame) (u : string) :
  computeCalendarStats hour_of day_of games u = None <->
  Exists (fun g => bad_index (hour_of (end_time g)) 24 \/ bad_index (day_of (end_time g)) 7) games.
Proof.
  unfold computeCalendarStats. rewrite <- (calendar_fold_None hour_of day_of u games (repeat bucket0 24) (repeat bucket0 7) (repeat_length _ _) (repeat_length _ _)).
  destruct (fold_left _ games _) as [[hs ds]|]; split; congruence.
Qed.
